(** * The loan canister of [dfinity_js_backend/src/index.ts]

    A shallow embedding of the Azle canister: its Candid records and
    variants, its three stable maps with their encoders, its endpoints
    and its helper functions, followed by the properties of the loan
    ledger.

    Conventions of the embedding.
    - A [nat64] is a JavaScript [bigint]: arithmetic is exact on [Z],
      [/] truncates ([Z.quot]) and a division by [0n] raises a
      [RangeError]. A value is checked against the range of [nat64]
      when it is encoded, that is when a record is inserted into a
      stable map: [is_nat64], [encodes_Loan], [encodes_UserProfile].
    - An exception aborts the call: the call traps, nothing is replied
      and the stable maps keep the contents they had before the call.
      A call that can trap returns an [option]; [None] is the trap.
    - A [Principal] is represented by its text form. The request map
      is declared [StableBTreeMap(1, Principal, Vec(LoanRequest))]: its
      key encoder accepts a principal and nothing else, its value
      encoder an array of requests and nothing else. The JavaScript
      values the canister hands to that map are the type [JsValue].
    - [ic.caller()], [ic.time()] and the value produced by [uuidv4()]
      are inputs of a call, gathered in the record [Ic].
    - A [StableBTreeMap] is a finite map; [values()] lists its
      records, in the enumeration order of the map. *)

From Stdlib Require Import ZArith Lia.
From stdpp Require Import base strings gmap list fin_maps pretty.

Open Scope Z_scope.

(** ** Candid types *)

Abbreviation text := string (only parsing).
Abbreviation nat64 := Z (only parsing).
Abbreviation Principal := string (only parsing).

Definition toText (p : Principal) : text := p.

Inductive Result (T E : Type) : Type :=
| Ok (t : T)
| Err (e : E).
Arguments Ok {T E} t.
Arguments Err {T E} e.

Inductive LoanStatus : Type :=
| Active (t : text)
| Completed (t : text)
| Defaulted (t : text).

Inductive Message : Type :=
| NotFound (t : text)
| InvalidPayload (t : text)
| PaymentFailed (t : text)
| PaymentCompleted (t : text).

Module Loan.
Record t : Type := mk {
  id : text;
  amount : nat64;
  interestRate : nat64;
  duration : nat64;
  borrower : Principal;
  lender : option Principal;
  status : LoanStatus;
  creationDate : nat64;
  dueDate : nat64
}.

(** The field assignments [loan.f = v] of the source. *)
Definition set_status (v : LoanStatus) (l : t) : t :=
  mk (id l) (amount l) (interestRate l) (duration l) (borrower l)
     (lender l) v (creationDate l) (dueDate l).
Definition set_amount (v : nat64) (l : t) : t :=
  mk (id l) v (interestRate l) (duration l) (borrower l)
     (lender l) (status l) (creationDate l) (dueDate l).
Definition set_interestRate (v : nat64) (l : t) : t :=
  mk (id l) (amount l) v (duration l) (borrower l)
     (lender l) (status l) (creationDate l) (dueDate l).
Definition set_duration (v : nat64) (l : t) : t :=
  mk (id l) (amount l) (interestRate l) v (borrower l)
     (lender l) (status l) (creationDate l) (dueDate l).
Definition set_dueDate (v : nat64) (l : t) : t :=
  mk (id l) (amount l) (interestRate l) (duration l) (borrower l)
     (lender l) (status l) (creationDate l) v.
End Loan.

Module LoanRequest.
Record t : Type := mk {
  amount : nat64;
  interestRate : nat64;
  duration : nat64
}.
End LoanRequest.

Module UserProfile.
Record t : Type := mk {
  principal : Principal;
  name : text;
  balance : nat64
}.

Definition set_balance (v : nat64) (u : t) : t :=
  mk (principal u) (name u) v.
End UserProfile.

(** ** The Candid encoders *)

Definition nat64_bound : Z := 18446744073709551616.

(** What the encoder of [nat64] accepts. *)
Definition is_nat64 (z : Z) : bool := bool_decide (0 ≤ z < nat64_bound).

Definition encodes_Loan (loan : Loan.t) : bool :=
  is_nat64 (Loan.amount loan)
  && is_nat64 (Loan.interestRate loan)
  && is_nat64 (Loan.duration loan)
  && is_nat64 (Loan.creationDate loan)
  && is_nat64 (Loan.dueDate loan).

Definition encodes_LoanRequest (request : LoanRequest.t) : bool :=
  is_nat64 (LoanRequest.amount request)
  && is_nat64 (LoanRequest.interestRate request)
  && is_nat64 (LoanRequest.duration request).

Definition encodes_UserProfile (user : UserProfile.t) : bool :=
  is_nat64 (UserProfile.balance user).

(** The JavaScript values that reach the request map: the text and
    the principal used as keys, the request record and an array of
    request records used as values. *)
Inductive JsValue : Type :=
| JsText (t : text)
| JsPrincipal (p : Principal)
| JsLoanRequest (request : LoanRequest.t)
| JsArray (requests : list LoanRequest.t).

(** The key encoder of the request map, [Principal]. *)
Definition encode_Principal (v : JsValue) : option Principal :=
  match v with
  | JsPrincipal p => Some p
  | _ => None
  end.

(** The value encoder of the request map, [Vec(LoanRequest)]. *)
Definition encode_Vec_LoanRequest (v : JsValue) : option (list LoanRequest.t) :=
  match v with
  | JsArray requests =>
      if forallb encodes_LoanRequest requests then Some requests else None
  | _ => None
  end.

(** ** The stable storage and the system API *)

Record State : Type := mkState {
  loansStorage : gmap text Loan.t;
  loanRequestsStorage : gmap Principal (list LoanRequest.t);
  userProfiles : gmap Principal UserProfile.t
}.

Definition set_loansStorage (m : gmap text Loan.t) (s : State) : State :=
  mkState m (loanRequestsStorage s) (userProfiles s).
Definition set_loanRequestsStorage (m : gmap Principal (list LoanRequest.t))
    (s : State) : State :=
  mkState (loansStorage s) m (userProfiles s).
Definition set_userProfiles (m : gmap Principal UserProfile.t)
    (s : State) : State :=
  mkState (loansStorage s) (loanRequestsStorage s) m.

(** The canister as deployed: three empty maps. *)
Definition init : State := mkState ∅ ∅ ∅.

Record Ic : Type := mkIc {
  caller : Principal;
  time : nat64;
  uuidv4 : text
}.

(** [StableBTreeMap.values()] *)
Definition values {V : Type} (m : gmap text V) : list V :=
  (map_to_list m).*2.

(** The update of the loans map under [loan.id], once the record is
    encoded. *)
Definition insert_loan (s : State) (loan : Loan.t) : State :=
  set_loansStorage (<[Loan.id loan := loan]> (loansStorage s)) s.

(** [loansStorage.insert(loan.id, loan)]: the record is encoded, which
    fails when a field has left [nat64], and stored. *)
Definition put_loan (s : State) (loan : Loan.t) : option State :=
  if encodes_Loan loan then Some (insert_loan s loan) else None.

(** The store a call leaves behind: the one it replies with, or the
    one it started from when it traps. *)
Definition store_after {A : Type} (call : option (A * State)) (s : State) : State :=
  match call with
  | Some (_, s') => s'
  | None => s
  end.

(** The ids a sweep reports; none when it traps. *)
Definition ids_of (call : option (list text * State)) : list text :=
  match call with
  | Some (ids, _) => ids
  | None => []
  end.

(** ** Helper functions of the canister *)

Definition secondsPerYear : Z := 365 * 24 * 60 * 60.

(** [loan.status.Active === "ACTIVE"] *)
Definition statusIsActive (st : LoanStatus) : bool :=
  match st with
  | Active t => bool_decide (t = "ACTIVE")
  | _ => false
  end.

(** [loan.amount * loan.interestRate / 100n * (ic.time() - loan.creationDate)
     / (365n * 24n * 60n * 60n)], evaluated left to right. *)
Definition calculateAccumulatedInterest (ic : Ic) (loan : Loan.t) : Z :=
  (Loan.amount loan * Loan.interestRate loan) ÷ 100
    * (time ic - Loan.creationDate loan) ÷ secondsPerYear.

Definition shouldAutomateRepayment (ic : Ic) (loan : Loan.t) : bool :=
  bool_decide (Loan.dueDate loan ≤ time ic).

(** [None] stands for the [RangeError] of a division by [0n]. *)
Definition calculateRepaymentAmount (ic : Ic) (loan : Loan.t) : option Z :=
  let accumulatedInterest := calculateAccumulatedInterest ic loan in
  if bool_decide (Loan.duration loan = 0) then None
  else
    let partOfPrincipal := Loan.amount loan ÷ Loan.duration loan in
    Some (accumulatedInterest + partOfPrincipal).

Definition calculateDueDate (ic : Ic) (duration : nat64) : nat64 :=
  time ic + duration.

Definition loanIsFullyRepaid (loan : Loan.t) : bool := false.

Definition loanIsDefaulted (loan : Loan.t) : bool := false.

(** [loan.lender !== None]: the left operand is the object decoded
    from the stable map, the right one the constant exported by azle;
    they are two objects, so the test holds whatever the lender. *)
Definition lenderIsNotNone (loan : Loan.t) : bool := true.

(** [loan.lender.toText()]: the receiver is the [Opt] wrapper, which
    has no [toText]; the call raises a [TypeError]. *)
Definition lenderToText (loan : Loan.t) : option text := None.

(** [loan.lender !== None && loan.lender.toText() === userPrincipal.toText()] *)
Definition lenderMatches (loan : Loan.t) (userPrincipal : Principal) : option bool :=
  if lenderIsNotNone loan then
    match lenderToText loan with
    | None => None
    | Some lender => Some (bool_decide (lender = toText userPrincipal))
    end
  else Some false.

(** The callback of the filter of [getUserLoanHistory]; [||] evaluates
    its right operand only when the left one is false. *)
Definition historyFilter (userPrincipal : Principal) (loan : Loan.t) : option bool :=
  if bool_decide (toText (Loan.borrower loan) = toText userPrincipal) then Some true
  else lenderMatches loan userPrincipal.

(** [Array.prototype.filter] with a callback that may throw. *)
Fixpoint filterM {A : Type} (f : A → option bool) (l : list A) : option (list A) :=
  match l with
  | [] => Some []
  | x :: l =>
      match f x with
      | None => None
      | Some b =>
          match filterM f l with
          | None => None
          | Some l' => Some (if b then x :: l' else l')
          end
      end
  end.

(** ** The endpoints

    An update call maps the system inputs, the arguments and the store
    to a reply and the new store; a query call only produces a reply.
    The calls that encode a computed value, divide or use the request
    map can trap and return an option. *)

Definition registerUser (ic : Ic) (name : text) (s : State)
    : Result text Message * State :=
  let userProfile := UserProfile.mk (caller ic) name 0 in
  let s := set_userProfiles (<[caller ic := userProfile]> (userProfiles s)) s in
  (Ok ("User " +:+ name +:+ " registered successfully with principal "
         +:+ toText (caller ic)), s).

Definition saveFunds (ic : Ic) (amount : nat64) (s : State)
    : option (Result text Message * State) :=
  match userProfiles s !! caller ic with
  | None => Some (Err (NotFound "User not found"), s)
  | Some user =>
      let user := UserProfile.set_balance (UserProfile.balance user + amount) user in
      if encodes_UserProfile user then
        let s := set_userProfiles
                   (<[UserProfile.principal user := user]> (userProfiles s)) s in
        Some (Ok ("Amount " +:+ pretty amount +:+ " saved successfully."), s)
      else None
  end.

(** [loanRequestsStorage.insert(ic.caller(), request)] hands the map a
    principal as key and the request record itself as value. *)
Definition createLoanRequest (ic : Ic) (request : LoanRequest.t) (s : State)
    : option (Result text Message * State) :=
  let loanRequestId := uuidv4 ic in
  match encode_Principal (JsPrincipal (caller ic)),
        encode_Vec_LoanRequest (JsLoanRequest request) with
  | Some key, Some value =>
      let s := set_loanRequestsStorage (<[key := value]> (loanRequestsStorage s)) s in
      Some (Ok loanRequestId, s)
  | _, _ => None
  end.

(** [loanRequestsStorage.get(loanRequestId)] hands the map a text as
    key. Were an entry found, it would be an array, whose [duration]
    is [undefined]: [ic.time() + request.duration] raises a
    [TypeError] before any loan is stored. *)
Definition acceptLoanRequest (ic : Ic) (loanRequestId : text) (s : State)
    : option (Result Loan.t Message * State) :=
  match encode_Principal (JsText loanRequestId) with
  | None => None
  | Some key =>
      match loanRequestsStorage s !! key with
      | None =>
          Some (Err (NotFound ("Loan request with id=" +:+ loanRequestId
                                 +:+ " not found")), s)
      | Some request => None
      end
  end.

Definition makeRepayment (ic : Ic) (loanId : text) (repaymentAmount : nat64)
    (s : State) : Result text Message * State :=
  match loansStorage s !! loanId with
  | None => (Err (NotFound ("Loan with id=" +:+ loanId +:+ " not found")), s)
  | Some loan =>
      let '(loan, s) :=
        if loanIsFullyRepaid loan then
          let loan := Loan.set_status (Completed "COMPLETED") loan in
          (loan, insert_loan s loan)
        else (loan, s) in
      (Ok ("Repayment of " +:+ pretty repaymentAmount +:+ " for loan id="
             +:+ loanId +:+ " successful"), s)
  end.

Definition getLoanStatus (loanId : text) (s : State)
    : Result LoanStatus Message :=
  match loansStorage s !! loanId with
  | None => Err (NotFound ("Loan with id=" +:+ loanId +:+ " not found"))
  | Some loan => Ok (Loan.status loan)
  end.

Definition checkForDefault (s : State) : list text * State :=
  let defaultedLoans := filter (λ loan, loanIsDefaulted loan = true)
                               (values (loansStorage s)) in
  let defaultedLoans := Loan.set_status (Defaulted "DEFAULTED") <$> defaultedLoans in
  let s := foldl insert_loan s defaultedLoans in
  (Loan.id <$> defaultedLoans, s).

Definition modifyLoanTerms (ic : Ic) (loanId : text) (newTerms : LoanRequest.t)
    (s : State) : option (Result Loan.t Message * State) :=
  match loansStorage s !! loanId with
  | None => Some (Err (NotFound ("Loan with id=" +:+ loanId +:+ " not found")), s)
  | Some loan =>
      if negb (statusIsActive (Loan.status loan)) then
        Some (Err (InvalidPayload "Loan modification is only allowed for active loans."), s)
      else
        let loan := Loan.set_amount (LoanRequest.amount newTerms) loan in
        let loan := Loan.set_interestRate (LoanRequest.interestRate newTerms) loan in
        let loan := Loan.set_duration (LoanRequest.duration newTerms) loan in
        let loan := Loan.set_dueDate
                      (calculateDueDate ic (LoanRequest.duration newTerms)) loan in
        match put_loan s loan with
        | None => None
        | Some s => Some (Ok loan, s)
        end
  end.

Definition getUserLoanHistory (userPrincipal : Principal) (s : State)
    : option (list Loan.t) :=
  filterM (historyFilter userPrincipal) (values (loansStorage s)).

(** The [forEach] of [accumulateInterest]; [None] when a rewritten
    loan cannot be encoded, which aborts the whole call. *)
Fixpoint accumulateLoop (ic : Ic) (loans : list Loan.t)
    (acc : list text * State) : option (list text * State) :=
  match loans with
  | [] => Some acc
  | loan :: loans =>
      let accumulatedInterest := calculateAccumulatedInterest ic loan in
      let loan := Loan.set_amount (Loan.amount loan + accumulatedInterest) loan in
      match put_loan acc.2 loan with
      | None => None
      | Some s => accumulateLoop ic loans (acc.1 ++ [Loan.id loan], s)
      end
  end.

Definition accumulateInterest (ic : Ic) (s : State) : option (list text * State) :=
  let activeLoans := filter (λ loan, statusIsActive (Loan.status loan) = true)
                            (values (loansStorage s)) in
  accumulateLoop ic activeLoans ([], s).

(** The [forEach] of [automateLoanRepayment]; [None] when a repayment
    amount cannot be computed or a rewritten loan cannot be encoded,
    which aborts the whole call. *)
Fixpoint automateLoop (ic : Ic) (loans : list Loan.t)
    (acc : list text * State) : option (list text * State) :=
  match loans with
  | [] => Some acc
  | loan :: loans =>
      match calculateRepaymentAmount ic loan with
      | None => None
      | Some repaymentAmount =>
          let loan := Loan.set_amount (Loan.amount loan - repaymentAmount) loan in
          match put_loan acc.2 loan with
          | None => None
          | Some s => automateLoop ic loans (acc.1 ++ [Loan.id loan], s)
          end
      end
  end.

Definition automateLoanRepayment (ic : Ic) (s : State)
    : option (list text * State) :=
  let loansForRepayment := filter (λ loan, shouldAutomateRepayment ic loan = true)
                                  (values (loansStorage s)) in
  automateLoop ic loansForRepayment ([], s).

Definition requestLoanExtension (ic : Ic) (loanId : text) (newDuration : nat64)
    (s : State) : option (Result Loan.t Message * State) :=
  match loansStorage s !! loanId with
  | None => Some (Err (NotFound ("Loan with id=" +:+ loanId +:+ " not found")), s)
  | Some loan =>
      if negb (statusIsActive (Loan.status loan)) then
        Some (Err (InvalidPayload "Loan extension is only allowed for active loans."), s)
      else if bool_decide (newDuration ≤ Loan.duration loan) then
        Some (Err (InvalidPayload "New duration must be longer than the current duration."), s)
      else
        let loan := Loan.set_duration newDuration loan in
        let loan := Loan.set_dueDate (calculateDueDate ic newDuration) loan in
        match put_loan s loan with
        | None => None
        | Some s => Some (Ok loan, s)
        end
  end.

(** ** Reachable stores

    One step per update call that replies; a call that traps leaves
    the store as it was, so it contributes no step. *)

Inductive step : State → State → Prop :=
| step_registerUser ic name s :
    step s (registerUser ic name s).2
| step_saveFunds ic amount s r s' :
    saveFunds ic amount s = Some (r, s') → step s s'
| step_createLoanRequest ic request s r s' :
    createLoanRequest ic request s = Some (r, s') → step s s'
| step_acceptLoanRequest ic loanRequestId s r s' :
    acceptLoanRequest ic loanRequestId s = Some (r, s') → step s s'
| step_makeRepayment ic loanId repaymentAmount s :
    step s (makeRepayment ic loanId repaymentAmount s).2
| step_checkForDefault s :
    step s (checkForDefault s).2
| step_modifyLoanTerms ic loanId newTerms s r s' :
    modifyLoanTerms ic loanId newTerms s = Some (r, s') → step s s'
| step_accumulateInterest ic s ids s' :
    accumulateInterest ic s = Some (ids, s') → step s s'
| step_automateLoanRepayment ic s ids s' :
    automateLoanRepayment ic s = Some (ids, s') → step s s'
| step_requestLoanExtension ic loanId newDuration s r s' :
    requestLoanExtension ic loanId newDuration s = Some (r, s') → step s s'.

(** The stores that a sequence of replying calls leads to from [s0]. *)
Inductive reachable_from (s0 : State) : State → Prop :=
| reachable_from_refl : reachable_from s0 s0
| reachable_from_step s s' : reachable_from s0 s → step s s' → reachable_from s0 s'.

(** The stores of the canister: those reached from the deployed one. *)
Definition reachable (s : State) : Prop := reachable_from init s.

(** Every record of the loans map is filed under its own id. *)
Definition keys_ok (s : State) : Prop :=
  map_Forall (λ k loan, Loan.id loan = k) (loansStorage s).

(** No stored loan has a lender. *)
Definition no_lender (s : State) : Prop :=
  map_Forall (λ _ loan, Loan.lender loan = None) (loansStorage s).

(** Every stored loan has the status written at acceptance. *)
Definition loans_active (s : State) : Prop :=
  map_Forall (λ _ loan, Loan.status loan = Active "ACTIVE") (loansStorage s).


(** Every stored profile is filed under the principal it records. *)
Definition profiles_wf (s : State) : Prop :=
  map_Forall (λ k user, UserProfile.principal user = k) (userProfiles s).

(** The loan as [accumulateInterest] rewrites it. *)
Definition accrue (ic : Ic) (loan : Loan.t) : Loan.t :=
  Loan.set_amount (Loan.amount loan + calculateAccumulatedInterest ic loan) loan.

(** The loan as [automateLoanRepayment] rewrites it when its duration
    is not 0. *)
Definition repay (ic : Ic) (loan : Loan.t) : Loan.t :=
  Loan.set_amount
    (Loan.amount loan
     - (calculateAccumulatedInterest ic loan + Loan.amount loan ÷ Loan.duration loan))
    loan.

(** What lets the repayment sweep pass a loan: a duration other than
    0 and a rewritten record that can be encoded. *)
Definition repayable (ic : Ic) (loan : Loan.t) : bool :=
  negb (bool_decide (Loan.duration loan = 0)) && encodes_Loan (repay ic loan).

(** A rewritten loan keeps what identifies it. *)
Definition same_identity (old new : Loan.t) : Prop :=
  Loan.id new = Loan.id old
  ∧ Loan.borrower new = Loan.borrower old
  ∧ Loan.lender new = Loan.lender old
  ∧ Loan.status new = Loan.status old
  ∧ Loan.creationDate new = Loan.creationDate old.

(** The loans a call stores back: encoded rewritings of stored loans. *)
Definition rewritings (s : State) (ls : list Loan.t) : Prop :=
  Forall (λ new, encodes_Loan new = true
                 ∧ ∃ k old, loansStorage s !! k = Some old ∧ same_identity old new) ls.

(** The single-floor formula of the specification, with the rate in
    percent. *)
Definition accrueInterest_spec (amount interestRate elapsed : Z) : Z :=
  (amount * interestRate * elapsed) / (100 * secondsPerYear).

(** ** Scenarios

    Store contents and calls used as examples: a loan of 1000 at 5
    percent for 3600 seconds created at time 0, and variations. *)

Definition alice : Principal := "2vxsx-fae".
Definition mallory : Principal := "aaaaa-aa".
Definition loanId1 : text := "9b2d7c1e-5f04-4a8e-b6c3-0d1f2a3b4c5d".
Definition loanId2 : text := "5c1a9e77-3d2b-4f60-8a14-7e9b0c2d4f61".
Definition requestId1 : text := "110ec58a-a0f2-4ac4-8393-c866d813b8d1".

Definition request1 : LoanRequest.t := LoanRequest.mk 1000 5 3600.

Definition ic_create : Ic := mkIc alice 0 requestId1.
Definition ic_accept : Ic := mkIc alice 0 loanId1.

(** A later call, at time 100, that draws no uuid, and one a year
    after time 0. *)
Definition ic_extend : Ic := mkIc alice 100 "".
Definition ic_year : Ic := mkIc alice 31536000 "".

(** The request map holding the request of [alice], as an array. *)
Definition s_requested : State := mkState ∅ {[ alice := [request1] ]} ∅.

(** The loans map holding the Active loan. *)
Definition loan1 : Loan.t :=
  Loan.mk loanId1 1000 5 3600 alice None (Active "ACTIVE") 0 3600.
Definition s_active : State := mkState {[ loanId1 := loan1 ]} ∅ ∅.

(** A loan of 150 at 1 percent, read two years after its creation. *)
Definition request7 : LoanRequest.t := LoanRequest.mk 150 1 94608000.
Definition loan7 : Loan.t :=
  Loan.mk loanId1 150 1 94608000 alice None (Active "ACTIVE") 0 94608000.
Definition ic7 : Ic := mkIc alice 63072000 "".

(** A store holding one Defaulted loan of 1000 over 10 seconds, past
    its due date. *)
Definition loan4 : Loan.t :=
  Loan.mk loanId1 1000 0 10 alice None (Defaulted "DEFAULTED") 0 10.
Definition s4 : State := mkState {[ loanId1 := loan4 ]} ∅ ∅.
Definition ic4 : Ic := mkIc alice 20 "".

(** An Active loan of duration 0, due since time 0. *)
Definition request8 : LoanRequest.t := LoanRequest.mk 1000 5 0.
Definition loan8 : Loan.t :=
  Loan.mk loanId1 1000 5 0 alice None (Active "ACTIVE") 0 0.
Definition s8 : State := mkState {[ loanId1 := loan8 ]} ∅ ∅.

(** The largest [nat64], and an Active loan whose amount is that
    value. *)
Definition nat64_max : Z := nat64_bound - 1.
Definition loan_max : Loan.t :=
  Loan.mk loanId2 nat64_max 100 3600 mallory None (Active "ACTIVE") 0 3600.
Definition s_two_loans : State :=
  mkState (<[ loanId2 := loan_max ]> {[ loanId1 := loan1 ]}) ∅ ∅.

(** A loan of 1000 at 5 percent over a duration of 1. *)
Definition loan_short : Loan.t :=
  Loan.mk loanId1 1000 5 1 alice None (Active "ACTIVE") 0 1.
Definition s_short : State := mkState {[ loanId1 := loan_short ]} ∅ ∅.

(** A registered caller. *)
Definition s_registered : State := (registerUser ic_create "Alice" init).2.
Definition profile_alice : UserProfile.t := UserProfile.mk alice "Alice" 0.

(** ** Encoders *)


Lemma is_nat64_false z : is_nat64 z = false ↔ ¬ (0 ≤ z < nat64_bound).
Proof. unfold is_nat64. apply bool_decide_eq_false. Qed.

Lemma encodes_Loan_true loan :
  encodes_Loan loan = true
  ↔ is_nat64 (Loan.amount loan) = true
    ∧ is_nat64 (Loan.interestRate loan) = true
    ∧ is_nat64 (Loan.duration loan) = true
    ∧ is_nat64 (Loan.creationDate loan) = true
    ∧ is_nat64 (Loan.dueDate loan) = true.
Proof. unfold encodes_Loan. rewrite !andb_true_iff. tauto. Qed.


Lemma put_loan_Some s loan s' :
  put_loan s loan = Some s' ↔ encodes_Loan loan = true ∧ s' = insert_loan s loan.
Proof.
  unfold put_loan. destruct (encodes_Loan loan); split.
  - by intros [= <-].
  - by intros [_ ->].
  - done.
  - by intros [? _].
Qed.

(** ** The store under a sweep *)

Section Sweep.

Implicit Types (s : State) (ls : list Loan.t) (loan : Loan.t) (k : text).

Lemma elem_of_values {V} (m : gmap text V) (v : V) :
  v ∈ values m ↔ ∃ k, m !! k = Some v.
Proof.
  unfold values. rewrite list_elem_of_fmap. split.
  - intros [[k v'] [-> Hin]]. exists k. by apply elem_of_map_to_list.
  - intros [k Hk]. exists (k, v). split; [done|]. by apply elem_of_map_to_list.
Qed.

Lemma values_ids s :
  keys_ok s → Loan.id <$> values (loansStorage s) = (map_to_list (loansStorage s)).*1.
Proof.
  intros Hk. unfold values. rewrite <- list_fmap_compose.
  apply list_fmap_ext. intros i [k loan] Hin. simpl.
  apply Hk. apply elem_of_map_to_list. by eapply list_elem_of_lookup_2.
Qed.

Lemma NoDup_values_ids s :
  keys_ok s → NoDup (Loan.id <$> values (loansStorage s)).
Proof. intros Hk. rewrite values_ids by done. apply NoDup_fst_map_to_list. Qed.

Lemma NoDup_filter_ids (P : Loan.t → Prop) `{∀ x, Decision (P x)} ls :
  NoDup (Loan.id <$> ls) → NoDup (Loan.id <$> filter P ls).
Proof.
  induction ls as [|l ls IH]; simpl; [done|].
  rewrite NoDup_cons. intros [Hl Hls]. rewrite filter_cons.
  destruct (decide (P l)); [|by apply IH].
  rewrite fmap_cons. apply NoDup_cons. split; [|by apply IH].
  rewrite list_elem_of_fmap in *. intros (y & Hy & Hin).
  apply Hl. exists y. split; [done|].
  by apply list_elem_of_filter in Hin as [_ ?].
Qed.

Lemma foldl_insert_loan_requests s ls :
  loanRequestsStorage (foldl insert_loan s ls) = loanRequestsStorage s.
Proof. revert s. induction ls as [|l ls IH]; intros s; simpl; [done|]. by rewrite IH. Qed.

Lemma foldl_insert_loan_profiles s ls :
  userProfiles (foldl insert_loan s ls) = userProfiles s.
Proof. revert s. induction ls as [|l ls IH]; intros s; simpl; [done|]. by rewrite IH. Qed.

Lemma foldl_insert_loan_notin s ls k :
  k ∉ Loan.id <$> ls →
  loansStorage (foldl insert_loan s ls) !! k = loansStorage s !! k.
Proof.
  revert s. induction ls as [|l ls IH]; intros s Hk; simpl; [done|].
  rewrite fmap_cons, not_elem_of_cons in Hk. destruct Hk as [Hne Hk].
  rewrite IH by done. simpl. by rewrite lookup_insert_ne.
Qed.

Lemma foldl_insert_loan_in s ls loan :
  NoDup (Loan.id <$> ls) → loan ∈ ls →
  loansStorage (foldl insert_loan s ls) !! Loan.id loan = Some loan.
Proof.
  revert s. induction ls as [|l ls IH]; intros s Hnd Hin; simpl.
  - by apply elem_of_nil in Hin.
  - rewrite fmap_cons, NoDup_cons in Hnd. destruct Hnd as [Hl Hnd].
    apply elem_of_cons in Hin as [->|Hin].
    + rewrite foldl_insert_loan_notin by done. simpl. apply lookup_insert_eq.
    + by apply IH.
Qed.

Lemma foldl_insert_loan_Forall (I : text → Loan.t → Prop) s ls :
  map_Forall I (loansStorage s) →
  Forall (λ loan, I (Loan.id loan) loan) ls →
  map_Forall I (loansStorage (foldl insert_loan s ls)).
Proof.
  revert s. induction ls as [|l ls IH]; intros s Hs Hls; simpl; [done|].
  apply Forall_cons in Hls as [Hl Hls]. apply IH; [|done].
  simpl. by apply map_Forall_insert_2.
Qed.

Lemma foldl_insert_loan_is_Some s ls k :
  is_Some (loansStorage s !! k) →
  is_Some (loansStorage (foldl insert_loan s ls) !! k).
Proof.
  revert s. induction ls as [|l ls IH]; intros s Hk; simpl; [done|].
  apply IH. simpl. rewrite lookup_insert. by case_decide.
Qed.

Lemma accrue_ids ic ls : Loan.id <$> (accrue ic <$> ls) = Loan.id <$> ls.
Proof. rewrite <- list_fmap_compose. by apply list_fmap_ext. Qed.

Lemma repay_ids ic ls : Loan.id <$> (repay ic <$> ls) = Loan.id <$> ls.
Proof. rewrite <- list_fmap_compose. by apply list_fmap_ext. Qed.

(** The loop of [accumulateInterest] runs to its end when every
    rewritten loan can be encoded, and traps otherwise; at its end the
    ids are pushed in scan order and each rewritten loan is stored. *)
Lemma accumulateLoop_eq ic ls ids s :
  accumulateLoop ic ls (ids, s)
  = if forallb encodes_Loan (accrue ic <$> ls)
    then Some (ids ++ (Loan.id <$> ls), foldl insert_loan s (accrue ic <$> ls))
    else None.
Proof.
  revert ids s. induction ls as [|l ls IH]; intros ids s; simpl.
  - by rewrite app_nil_r.
  - unfold put_loan. fold (accrue ic l).
    destruct (encodes_Loan (accrue ic l)); simpl; [|done].
    rewrite IH. destruct (forallb _ _); [|done]. by rewrite <- app_assoc.
Qed.

Lemma accumulateInterest_eq ic s :
  let activeLoans := filter (λ loan, statusIsActive (Loan.status loan) = true)
                            (values (loansStorage s)) in
  accumulateInterest ic s
  = if forallb encodes_Loan (accrue ic <$> activeLoans)
    then Some (Loan.id <$> activeLoans, foldl insert_loan s (accrue ic <$> activeLoans))
    else None.
Proof. exact (accumulateLoop_eq ic _ [] s). Qed.

(** The loop of [automateLoanRepayment] runs to its end when every
    loan is repayable, and traps otherwise. *)
Lemma automateLoop_eq ic ls ids s :
  automateLoop ic ls (ids, s)
  = if forallb (repayable ic) ls
    then Some (ids ++ (Loan.id <$> ls), foldl insert_loan s (repay ic <$> ls))
    else None.
Proof.
  revert ids s. induction ls as [|l ls IH]; intros ids s; simpl.
  - by rewrite app_nil_r.
  - unfold calculateRepaymentAmount, repayable.
    destruct (bool_decide (Loan.duration l = 0)); simpl; [done|].
    unfold put_loan. fold (repay ic l).
    destruct (encodes_Loan (repay ic l)); simpl; [|done].
    rewrite IH. fold (repayable ic). destruct (forallb _ _); [|done].
    by rewrite <- app_assoc.
Qed.

Lemma automateLoanRepayment_eq ic s :
  let due := filter (λ loan, shouldAutomateRepayment ic loan = true)
                    (values (loansStorage s)) in
  automateLoanRepayment ic s
  = if forallb (repayable ic) due
    then Some (Loan.id <$> due, foldl insert_loan s (repay ic <$> due))
    else None.
Proof. exact (automateLoop_eq ic _ [] s). Qed.

Lemma checkForDefault_eq s : checkForDefault s = ([], s).
Proof.
  unfold checkForDefault.
  assert (filter (λ loan, loanIsDefaulted loan = true) (values (loansStorage s)) = [])
    as ->; [|done].
  induction (values (loansStorage s)) as [|l ls IH]; [done|].
  rewrite filter_cons. by destruct (decide (loanIsDefaulted l = true)).
Qed.

Lemma due_loans ic s loan :
  loan ∈ filter (λ loan, shouldAutomateRepayment ic loan = true)
                (values (loansStorage s))
  ↔ (∃ k, loansStorage s !! k = Some loan) ∧ Loan.dueDate loan ≤ time ic.
Proof.
  rewrite list_elem_of_filter, elem_of_values.
  unfold shouldAutomateRepayment. rewrite bool_decide_eq_true. tauto.
Qed.

Lemma statusIsActive_true st : statusIsActive st = true ↔ st = Active "ACTIVE".
Proof.
  destruct st as [t|t|t]; simpl; try (split; [done|intros [=]]).
  rewrite bool_decide_eq_true. split; [by intros ->|by intros [= ->]].
Qed.

Lemma statusIsActive_false st : statusIsActive st = false ↔ st ≠ Active "ACTIVE".
Proof.
  rewrite <- statusIsActive_true. destruct (statusIsActive st); split; congruence.
Qed.

Lemma active_loans s loan :
  loan ∈ filter (λ loan, statusIsActive (Loan.status loan) = true)
                (values (loansStorage s))
  ↔ (∃ k, loansStorage s !! k = Some loan) ∧ Loan.status loan = Active "ACTIVE".
Proof. rewrite list_elem_of_filter, elem_of_values, statusIsActive_true. tauto. Qed.

End Sweep.

(** ** What a replying call does to the three maps *)

Section Steps.

Implicit Types (s : State) (ls : list Loan.t) (loan : Loan.t) (k : text).

Lemma createLoanRequest_traps ic request s : createLoanRequest ic request s = None.
Proof. reflexivity. Qed.

Lemma acceptLoanRequest_traps ic loanRequestId s :
  acceptLoanRequest ic loanRequestId s = None.
Proof. reflexivity. Qed.

Lemma forallb_Forall_fmap {A B} (f : A → B) (p : B → bool) (P : A → Prop) (l : list A) :
  (∀ x, x ∈ l → p (f x) = true → P x) →
  forallb p (f <$> l) = true → Forall P l.
Proof.
  induction l as [|x l IH]; intros HP; simpl; [done|].
  rewrite andb_true_iff. intros [Hx Hl]. constructor.
  - apply HP; [by left|done].
  - apply IH; [|done]. intros y Hy. apply HP. by right.
Qed.

Lemma step_loans s s' :
  step s s' →
  ∃ ls, loansStorage s' = loansStorage (foldl insert_loan s ls) ∧ rewritings s ls.
Proof.
  assert (∀ s, ∃ ls, loansStorage s = loansStorage (foldl insert_loan s ls)
                    ∧ rewritings s ls) as Hsame.
  { intros s0. exists []. split; [done|]. constructor. }
  destruct 1 as [ic name s|ic amount s r s' Hcall|ic request s r s' Hcall
                |ic rid s r s' Hcall|ic lid amt s|s|ic lid terms s r s' Hcall
                |ic s ids s' Hcall|ic s ids s' Hcall|ic lid dur s r s' Hcall].
  - apply (Hsame s).
  - unfold saveFunds in Hcall. destruct (userProfiles s !! caller ic); [|].
    + destruct (encodes_UserProfile _); [|done]. injection Hcall as _ <-. apply (Hsame s).
    + injection Hcall as _ <-. apply Hsame.
  - by rewrite createLoanRequest_traps in Hcall.
  - by rewrite acceptLoanRequest_traps in Hcall.
  - unfold makeRepayment. destruct (loansStorage s !! lid); apply (Hsame s).
  - rewrite checkForDefault_eq. apply Hsame.
  - unfold modifyLoanTerms in Hcall.
    destruct (loansStorage s !! lid) as [loan|] eqn:Hl; [|injection Hcall as _ <-; apply Hsame].
    destruct (negb _); [injection Hcall as _ <-; apply Hsame|].
    destruct (put_loan _ _) as [s1|] eqn:Hput; [|done]. injection Hcall as _ <-.
    apply put_loan_Some in Hput as [Henc ->].
    eexists [_]. split; [reflexivity|]. constructor; [|constructor].
    split; [done|]. exists lid, loan. by split.
  - rewrite accumulateInterest_eq in Hcall. simpl in Hcall.
    destruct (forallb _ _) eqn:Hall; [|done]. injection Hcall as _ <-.
    eexists. split; [reflexivity|]. apply Forall_fmap.
    eapply forallb_Forall_fmap; [|exact Hall].
    intros loan [[k Hk] _]%active_loans Henc. simpl. split; [done|].
    exists k, loan. by split.
  - rewrite automateLoanRepayment_eq in Hcall. simpl in Hcall.
    destruct (forallb _ _) eqn:Hall; [|done]. injection Hcall as _ <-.
    eexists. split; [reflexivity|]. apply Forall_fmap, Forall_forall.
    intros loan Hin. pose proof Hin as [[k Hk] _]%due_loans.
    rewrite forallb_forall in Hall.
    assert (repayable ic loan = true) as [_ Henc]%andb_true_iff.
    { apply Hall. by apply list_elem_of_In. }
    simpl. split; [done|]. exists k, loan. by split.
  - unfold requestLoanExtension in Hcall.
    destruct (loansStorage s !! lid) as [loan|] eqn:Hl; [|injection Hcall as _ <-; apply Hsame].
    destruct (negb _); [injection Hcall as _ <-; apply Hsame|].
    destruct (bool_decide _); [injection Hcall as _ <-; apply Hsame|].
    destruct (put_loan _ _) as [s1|] eqn:Hput; [|done]. injection Hcall as _ <-.
    apply put_loan_Some in Hput as [Henc ->].
    eexists [_]. split; [reflexivity|]. constructor; [|constructor].
    split; [done|]. exists lid, loan. by split.
Qed.

Lemma step_requests s s' : step s s' → loanRequestsStorage s' = loanRequestsStorage s.
Proof.
  destruct 1 as [ic name s|ic amount s r s' Hcall|ic request s r s' Hcall
                |ic rid s r s' Hcall|ic lid amt s|s|ic lid terms s r s' Hcall
                |ic s ids s' Hcall|ic s ids s' Hcall|ic lid dur s r s' Hcall].
  - done.
  - unfold saveFunds in Hcall. destruct (userProfiles s !! caller ic).
    + destruct (encodes_UserProfile _); [|done]. by injection Hcall as _ <-.
    + by injection Hcall as _ <-.
  - by rewrite createLoanRequest_traps in Hcall.
  - by rewrite acceptLoanRequest_traps in Hcall.
  - unfold makeRepayment. by destruct (loansStorage s !! lid).
  - by rewrite checkForDefault_eq.
  - unfold modifyLoanTerms, put_loan in Hcall.
    destruct (loansStorage s !! lid); [|by injection Hcall as _ <-].
    destruct (negb _); [by injection Hcall as _ <-|].
    destruct (encodes_Loan _); [|done]. by injection Hcall as _ <-.
  - rewrite accumulateInterest_eq in Hcall. simpl in Hcall.
    destruct (forallb _ _); [|done]. injection Hcall as _ <-.
    apply foldl_insert_loan_requests.
  - rewrite automateLoanRepayment_eq in Hcall. simpl in Hcall.
    destruct (forallb _ _); [|done]. injection Hcall as _ <-.
    apply foldl_insert_loan_requests.
  - unfold requestLoanExtension, put_loan in Hcall.
    destruct (loansStorage s !! lid); [|by injection Hcall as _ <-].
    destruct (negb _); [by injection Hcall as _ <-|].
    destruct (bool_decide _); [by injection Hcall as _ <-|].
    destruct (encodes_Loan _); [|done]. by injection Hcall as _ <-.
Qed.

Lemma step_profiles s s' :
  step s s' →
  userProfiles s' = userProfiles s
  ∨ ∃ user, userProfiles s' = <[UserProfile.principal user := user]> (userProfiles s).
Proof.
  destruct 1 as [ic name s|ic amount s r s' Hcall|ic request s r s' Hcall
                |ic rid s r s' Hcall|ic lid amt s|s|ic lid terms s r s' Hcall
                |ic s ids s' Hcall|ic s ids s' Hcall|ic lid dur s r s' Hcall].
  - right. by eexists (UserProfile.mk _ _ _).
  - unfold saveFunds in Hcall. destruct (userProfiles s !! caller ic) as [user|].
    + destruct (encodes_UserProfile _); [|done]. injection Hcall as _ <-.
      right. by eexists (UserProfile.set_balance _ user).
    + injection Hcall as _ <-. by left.
  - by rewrite createLoanRequest_traps in Hcall.
  - by rewrite acceptLoanRequest_traps in Hcall.
  - left. unfold makeRepayment. by destruct (loansStorage s !! lid).
  - left. by rewrite checkForDefault_eq.
  - left. unfold modifyLoanTerms, put_loan in Hcall.
    destruct (loansStorage s !! lid); [|by injection Hcall as _ <-].
    destruct (negb _); [by injection Hcall as _ <-|].
    destruct (encodes_Loan _); [|done]. by injection Hcall as _ <-.
  - left. rewrite accumulateInterest_eq in Hcall. simpl in Hcall.
    destruct (forallb _ _); [|done]. injection Hcall as _ <-.
    apply foldl_insert_loan_profiles.
  - left. rewrite automateLoanRepayment_eq in Hcall. simpl in Hcall.
    destruct (forallb _ _); [|done]. injection Hcall as _ <-.
    apply foldl_insert_loan_profiles.
  - left. unfold requestLoanExtension, put_loan in Hcall.
    destruct (loansStorage s !! lid); [|by injection Hcall as _ <-].
    destruct (negb _); [by injection Hcall as _ <-|].
    destruct (bool_decide _); [by injection Hcall as _ <-|].
    destruct (encodes_Loan _); [|done]. by injection Hcall as _ <-.
Qed.

(** A property of the stored loans that rewritings keep is kept by
    every replying call. *)
Lemma step_loans_Forall (I : text → Loan.t → Prop) s s' :
  (∀ k old new, I k old → same_identity old new → encodes_Loan new = true →
                I (Loan.id new) new) →
  step s s' →
  map_Forall I (loansStorage s) → map_Forall I (loansStorage s').
Proof.
  intros Hkeep (ls & -> & Hls)%step_loans HI.
  apply foldl_insert_loan_Forall; [done|].
  eapply Forall_impl; [exact Hls|]. simpl.
  intros new [Henc (k & old & Hk & Hsame)]. eapply Hkeep; [|done|done].
  exact (HI k old Hk).
Qed.

Lemma reachable_from_Forall (I : text → Loan.t → Prop) s0 s :
  (∀ k old new, I k old → same_identity old new → encodes_Loan new = true →
                I (Loan.id new) new) →
  reachable_from s0 s →
  map_Forall I (loansStorage s0) → map_Forall I (loansStorage s).
Proof.
  intros Hkeep Hreach H0. induction Hreach as [|s s' _ IH Hstep]; [done|].
  by eapply step_loans_Forall.
Qed.

End Steps.

(** ** The scenarios, evaluated *)

Example nat64_bound_is_2_pow_64 : nat64_bound = 2 ^ 64.
Proof. reflexivity. Qed.

Example interest_after_one_year : calculateAccumulatedInterest ic_year loan1 = 50.
Proof. reflexivity. Qed.

Example interest_truncates_the_percentage :
  calculateAccumulatedInterest ic7 loan7 = 2
  ∧ accrueInterest_spec 150 1 63072000 = 3.
Proof. split; reflexivity. Qed.

Example repayment_amount_of_loan4 : calculateRepaymentAmount ic4 loan4 = Some 100.
Proof. reflexivity. Qed.

Example history_of_the_borrower : getUserLoanHistory alice s_active = Some [loan1].
Proof. vm_compute. reflexivity. Qed.

Example history_of_a_stranger : getUserLoanHistory mallory s_active = None.
Proof. vm_compute. reflexivity. Qed.

Example modifyLoanTerms_on_defaulted :
  modifyLoanTerms ic4 loanId1 request1 s4
  = Some (Err (InvalidPayload "Loan modification is only allowed for active loans."), s4).
Proof. vm_compute. reflexivity. Qed.

Lemma s_active_loan1 : loansStorage s_active !! loanId1 = Some loan1.
Proof. apply lookup_singleton_eq. Qed.

Lemma s_active_keys_ok : keys_ok s_active.
Proof. unfold keys_ok, s_active. simpl. by apply map_Forall_singleton. Qed.

Lemma s4_keys_ok : keys_ok s4.
Proof. unfold keys_ok, s4. simpl. by apply map_Forall_singleton. Qed.

Lemma s4_loan4 : loansStorage s4 !! loanId1 = Some loan4.
Proof. apply lookup_singleton_eq. Qed.



Lemma s_registered_reachable : reachable s_registered.
Proof. eapply reachable_from_step; [apply reachable_from_refl|apply step_registerUser]. Qed.

(** ** Repayments *)

(** C9: on an existing loan, [makeRepayment] replies [Ok] with its
    success message for every amount, 0 included, and returns the store
    it was given: no loan, request or profile is touched. *)
Theorem makeRepayment_no_effect ic loanId repaymentAmount s loan :
  loansStorage s !! loanId = Some loan →
  makeRepayment ic loanId repaymentAmount s
  = (Ok ("Repayment of " +:+ pretty repaymentAmount +:+ " for loan id="
           +:+ loanId +:+ " successful"), s).
Proof. intros Hloan. unfold makeRepayment. by rewrite Hloan. Qed.

Lemma makeRepayment_no_effect_witness :
  loansStorage s_active !! loanId1 = Some loan1
  ∧ makeRepayment ic_accept loanId1 0 s_active
    = (Ok ("Repayment of " +:+ pretty 0 +:+ " for loan id="
             +:+ loanId1 +:+ " successful"), s_active).
Proof.
  split; [exact s_active_loan1|].
  apply (makeRepayment_no_effect ic_accept loanId1 0 s_active loan1).
  exact s_active_loan1.
Defined.

(** ** Where the code departs from the intended ledger *)


(** C5, on the code: with the request of [alice] in the request map,
    [acceptLoanRequest] traps, whether it is given the principal's
    text or a uuid: the text key is refused by the key encoder of the
    map, no loan is built and the loans map stays empty. *)
Theorem acceptLoanRequest_builds_no_loan :
  loanRequestsStorage s_requested !! alice = Some [request1]
  ∧ acceptLoanRequest ic_accept (toText alice) s_requested = None
  ∧ acceptLoanRequest ic_accept requestId1 s_requested = None
  ∧ loansStorage (store_after (acceptLoanRequest ic_accept (toText alice) s_requested)
                    s_requested) = ∅.
Proof.
  split_and!.
  - apply lookup_singleton_eq.
  - apply acceptLoanRequest_traps.
  - apply acceptLoanRequest_traps.
  - by rewrite acceptLoanRequest_traps.
Qed.

(** C2, on the code: the loan of the scenario is due at 3600, nothing
    was repaid, and [checkForDefault], which never reads the clock,
    reports no defaulted loan and leaves the loan Active. *)
Theorem checkForDefault_reports_nothing :
  loansStorage s_active !! loanId1 = Some loan1
  ∧ Loan.dueDate loan1 = 3600
  ∧ checkForDefault s_active = ([], s_active)
  ∧ getLoanStatus loanId1 (checkForDefault s_active).2 = Ok (Active "ACTIVE").
Proof.
  split_and!; [exact s_active_loan1|reflexivity|apply checkForDefault_eq|].
  rewrite checkForDefault_eq. simpl. unfold getLoanStatus.
  by rewrite s_active_loan1.
Qed.

(** C3, on the code: a repayment of 1050 on the Active loan of 1000 is
    acknowledged but the loan stays Active, and a second repayment is
    acknowledged as well instead of failing with [InvalidPayload]. *)
Theorem makeRepayment_never_completes :
  let reply1 := makeRepayment ic_extend loanId1 1050 s_active in
  let reply2 := makeRepayment ic_extend loanId1 1 reply1.2 in
  loansStorage s_active !! loanId1 = Some loan1
  ∧ reply1 = (Ok ("Repayment of 1050 for loan id=" +:+ loanId1 +:+ " successful"),
              s_active)
  ∧ getLoanStatus loanId1 reply1.2 = Ok (Active "ACTIVE")
  ∧ reply2 = (Ok ("Repayment of 1 for loan id=" +:+ loanId1 +:+ " successful"),
              s_active).
Proof.
  assert (∀ amount,
            makeRepayment ic_extend loanId1 amount s_active
            = (Ok ("Repayment of " +:+ pretty amount +:+ " for loan id="
                     +:+ loanId1 +:+ " successful"), s_active)) as H.
  { intros amount. unfold makeRepayment. by rewrite s_active_loan1. }
  cbv zeta. rewrite (H 1050). simpl. rewrite (H 1).
  split_and!; [exact s_active_loan1|reflexivity| |reflexivity].
  unfold getLoanStatus. by rewrite s_active_loan1.
Qed.

(** C4, on the code: [automateLoanRepayment] selects loans by due date
    alone, so the Defaulted loan is rewritten with its amount reduced
    from 1000 to 900, while [accumulateInterest] leaves it as it was. *)
Theorem automateLoanRepayment_rewrites_defaulted :
  loansStorage s4 !! loanId1 = Some loan4
  ∧ Loan.status loan4 = Defaulted "DEFAULTED"
  ∧ (∃ s', automateLoanRepayment ic4 s4 = Some ([loanId1], s')
           ∧ loansStorage s' !! loanId1 = Some (Loan.set_amount 900 loan4))
  ∧ (∃ s', accumulateInterest ic4 s4 = Some ([], s')
           ∧ loansStorage s' !! loanId1 = Some loan4).
Proof.
  split_and!; [exact s4_loan4|reflexivity| |].
  - eexists. split; vm_compute; reflexivity.
  - eexists. split; vm_compute; reflexivity.
Qed.

(** A due loan of duration 0 aborts the repayment sweep. *)
Lemma automateLoanRepayment_traps ic s k loan :
  loansStorage s !! k = Some loan →
  Loan.dueDate loan ≤ time ic →
  Loan.duration loan = 0 →
  automateLoanRepayment ic s = None.
Proof.
  intros Hk Hdue Hdur. rewrite automateLoanRepayment_eq. simpl.
  destruct (forallb _ _) eqn:Hall; [|done].
  rewrite forallb_forall in Hall.
  assert (repayable ic loan = true) as Hrep.
  { apply Hall, list_elem_of_In, due_loans. eauto. }
  unfold repayable in Hrep. by rewrite bool_decide_eq_true_2 in Hrep.
Qed.

(** C8, on the code: with a stored loan of duration 0 that is due,
    [calculateRepaymentAmount] divides by zero and the whole
    [automateLoanRepayment] call traps; no [InvalidPayload] is
    signalled. *)
Theorem automateLoanRepayment_division_by_zero :
  loansStorage s8 !! loanId1 = Some loan8
  ∧ shouldAutomateRepayment ic_extend loan8 = true
  ∧ calculateRepaymentAmount ic_extend loan8 = None
  ∧ automateLoanRepayment ic_extend s8 = None.
Proof.
  assert (loansStorage s8 !! loanId1 = Some loan8) as H8 by apply lookup_singleton_eq.
  split_and!; [done|reflexivity|reflexivity|].
  apply (automateLoanRepayment_traps ic_extend s8 loanId1 loan8 H8); simpl; lia.
Qed.

(** ** Extensions and modifications *)

(** C6, as stated, against the code: the Active loan of duration 3600
    is asked an extension to the largest [nat64]; the request is
    neither refused with [InvalidPayload] nor applied: the due date
    [100 + (2^64 - 1)] cannot be encoded and the call traps. *)
Lemma requestLoanExtension_overflow_traps :
  loansStorage s_active !! loanId1 = Some loan1
  ∧ Loan.status loan1 = Active "ACTIVE"
  ∧ Loan.duration loan1 < nat64_max
  ∧ is_nat64 nat64_max = true
  ∧ requestLoanExtension ic_extend loanId1 nat64_max s_active = None.
Proof.
  split_and!; [exact s_active_loan1|reflexivity|done|reflexivity|].
  unfold requestLoanExtension. rewrite s_active_loan1. reflexivity.
Qed.

(** C6, as the code has it: on an existing loan and for a [nat64]
    duration, [requestLoanExtension] fails with [InvalidPayload], and
    changes nothing, exactly when the status is not the Active one or
    the new duration does not exceed the current one. Otherwise, when
    the time of the call plus the new duration is still a [nat64], it
    replies with the loan whose duration is the new one and whose due
    date is that sum, and stores it under the loan's id; when the sum
    is not a [nat64], the call traps. [modifyLoanTerms] on a Completed
    or Defaulted loan fails with [InvalidPayload] and changes
    nothing. *)
Theorem requestLoanExtension_spec ic loanId newDuration s loan :
  loansStorage s !! loanId = Some loan →
  encodes_Loan loan = true →
  is_nat64 newDuration = true →
  ((∃ m, requestLoanExtension ic loanId newDuration s
         = Some (Err (InvalidPayload m), s))
     ↔ (Loan.status loan ≠ Active "ACTIVE" ∨ newDuration ≤ Loan.duration loan))
  ∧ (Loan.status loan = Active "ACTIVE" → Loan.duration loan < newDuration →
     is_nat64 (time ic + newDuration) = true →
       ∃ loan',
         requestLoanExtension ic loanId newDuration s
         = Some (Ok loan', insert_loan s loan')
         ∧ Loan.duration loan' = newDuration
         ∧ Loan.dueDate loan' = time ic + newDuration
         ∧ loan' = Loan.set_dueDate (time ic + newDuration)
                     (Loan.set_duration newDuration loan)
         ∧ loansStorage (insert_loan s loan')
           = <[Loan.id loan := loan']> (loansStorage s))
  ∧ (Loan.status loan = Active "ACTIVE" → Loan.duration loan < newDuration →
     is_nat64 (time ic + newDuration) = false →
       requestLoanExtension ic loanId newDuration s = None)
  ∧ (∀ newTerms t,
       Loan.status loan = Completed t ∨ Loan.status loan = Defaulted t →
       ∃ m, modifyLoanTerms ic loanId newTerms s = Some (Err (InvalidPayload m), s)).
Proof.
  intros Hloan (Ha & Hr & _ & Hc & _)%encodes_Loan_true Hnew.
  assert (encodes_Loan (Loan.set_dueDate (calculateDueDate ic newDuration)
                          (Loan.set_duration newDuration loan))
          = is_nat64 (time ic + newDuration)) as Henc.
  { unfold encodes_Loan, calculateDueDate. simpl. by rewrite Ha, Hr, Hnew, Hc. }
  unfold requestLoanExtension, modifyLoanTerms, put_loan. rewrite Hloan, Henc.
  destruct (statusIsActive (Loan.status loan)) eqn:Hact; simpl.
  - apply statusIsActive_true in Hact.
    destruct (bool_decide (newDuration ≤ Loan.duration loan)) eqn:Hle; simpl.
    + apply bool_decide_eq_true in Hle. split_and!.
      * split; [by right|eauto].
      * lia.
      * lia.
      * intros terms t [H|H]; congruence.
    + apply bool_decide_eq_false in Hle. split_and!.
      * split; [|intros [H|H]; [congruence|lia]].
        intros [m Hm]. by destruct (is_nat64 (time ic + newDuration)).
      * intros _ _ ->. by eexists.
      * by intros _ _ ->.
      * intros terms t [H|H]; congruence.
  - apply statusIsActive_false in Hact. split_and!.
    + split; [by left|eauto].
    + congruence.
    + congruence.
    + intros terms t _. eauto.
Qed.

Lemma requestLoanExtension_spec_witness :
  loansStorage s_active !! loanId1 = Some loan1
  ∧ ∃ loan',
      requestLoanExtension ic_extend loanId1 7200 s_active
      = Some (Ok loan', insert_loan s_active loan')
      ∧ Loan.duration loan' = 7200
      ∧ Loan.dueDate loan' = time ic_extend + 7200
      ∧ loan' = Loan.set_dueDate (time ic_extend + 7200) (Loan.set_duration 7200 loan1)
      ∧ loansStorage (insert_loan s_active loan')
        = <[Loan.id loan1 := loan']> (loansStorage s_active).
Proof.
  split; [exact s_active_loan1|].
  refine (proj1 (proj2
    (requestLoanExtension_spec ic_extend loanId1 7200 s_active loan1
       s_active_loan1 _ _)) _ _ _).
  - reflexivity.
  - reflexivity.
  - reflexivity.
  - simpl. lia.
  - reflexivity.
Defined.

(** ** Interest accrual *)

(** The interest of the source on [nat64] data: both divisions round
    down. *)
Lemma calculateAccumulatedInterest_floor ic loan :
  0 ≤ Loan.amount loan → 0 ≤ Loan.interestRate loan →
  Loan.creationDate loan ≤ time ic →
  calculateAccumulatedInterest ic loan
  = ((Loan.amount loan * Loan.interestRate loan) / 100
       * (time ic - Loan.creationDate loan)) / secondsPerYear.
Proof.
  intros Ha Hr Ht. unfold calculateAccumulatedInterest.
  rewrite (Z.quot_div_nonneg (_ * _) 100) by lia.
  apply Z.quot_div_nonneg; [|done].
  apply Z.mul_nonneg_nonneg; [|lia].
  apply Z.div_pos; lia.
Qed.

(** When the sweep replies, an Active loan filed under its id is
    stored back with its interest added, and reported. *)
Lemma accumulateInterest_lookup ic s ids s' k loan :
  keys_ok s →
  accumulateInterest ic s = Some (ids, s') →
  loansStorage s !! k = Some loan →
  Loan.status loan = Active "ACTIVE" →
  k ∈ ids ∧ loansStorage s' !! k = Some (accrue ic loan).
Proof.
  intros Hkeys Hcall Hk Hact. rewrite accumulateInterest_eq in Hcall. simpl in Hcall.
  destruct (forallb _ _); [|done]. injection Hcall as <- <-.
  pose proof (Hkeys k loan Hk) as Hid. simpl in Hid.
  assert (loan ∈ filter (λ loan, statusIsActive (Loan.status loan) = true)
                        (values (loansStorage s))) as Hin.
  { apply active_loans. eauto. }
  split.
  - apply list_elem_of_fmap. eauto.
  - rewrite <- Hid. change (Loan.id loan) with (Loan.id (accrue ic loan)).
    apply foldl_insert_loan_in.
    + rewrite accrue_ids. by apply NoDup_filter_ids, NoDup_values_ids.
    + by apply list_elem_of_fmap_2.
Qed.





(** ** Lenders *)

Lemma no_lender_kept s0 s : no_lender s0 → reachable_from s0 s → no_lender s.
Proof.
  intros H0 Hreach. eapply reachable_from_Forall; [|exact Hreach|exact H0].
  simpl. intros _ old new Hold (_ & _ & Hlender & _) _. congruence.
Qed.

(** C10: no update call assigns a lender: from a store in which no
    loan has a lender, and in particular from the deployed canister,
    every sequence of replying calls leads to a store in which no loan
    has a lender; and the lender side of the filter of
    [getUserLoanHistory] matches no stored loan. *)
Theorem no_lender_is_kept s0 s :
  no_lender s0 →
  reachable_from s0 s →
  (∀ k loan, loansStorage s !! k = Some loan → Loan.lender loan = None)
  ∧ (∀ userPrincipal loan,
       loan ∈ values (loansStorage s) → lenderMatches loan userPrincipal ≠ Some true).
Proof.
  intros H0 Hreach. split.
  - exact (no_lender_kept s0 s H0 Hreach).
  - intros u loan _. discriminate.
Qed.

Lemma s_active_no_lender : no_lender s_active.
Proof. unfold no_lender, s_active. simpl. by apply map_Forall_singleton. Qed.

Lemma s_active_extended :
  reachable_from s_active
    (store_after (requestLoanExtension ic_extend loanId1 7200 s_active) s_active).
Proof.
  eapply reachable_from_step; [apply reachable_from_refl|].
  eapply (step_requestLoanExtension ic_extend loanId1 7200 s_active).
  vm_compute. reflexivity.
Qed.

Lemma no_lender_is_kept_witness :
  ∃ loan,
    loansStorage (store_after (requestLoanExtension ic_extend loanId1 7200 s_active)
                    s_active) !! loanId1 = Some loan
    ∧ Loan.duration loan = 7200
    ∧ Loan.lender loan = None.
Proof.
  eexists. split; [vm_compute; reflexivity|]. split; [reflexivity|].
  refine (proj1 (no_lender_is_kept s_active _ s_active_no_lender s_active_extended)
            loanId1 _ _).
  vm_compute. reflexivity.
Defined.

(** The stores of the canister hold no loan with a lender. *)
Corollary reachable_has_no_lender s : reachable s → no_lender s.
Proof. apply no_lender_kept. intros k loan. simpl. by rewrite lookup_empty. Qed.

(** ** Profiles and funds *)

Lemma profiles_wf_kept s0 s : profiles_wf s0 → reachable_from s0 s → profiles_wf s.
Proof.
  intros H0 Hreach. induction Hreach as [|s s' _ IH Hstep]; [done|].
  unfold profiles_wf. destruct (step_profiles s s' Hstep) as [->|[user ->]]; [done|].
  by apply map_Forall_insert_2.
Qed.

Lemma reachable_profiles_wf s : reachable s → profiles_wf s.
Proof. apply profiles_wf_kept. intros k user. simpl. by rewrite lookup_empty. Qed.

(** X1: a caller who registers and then saves the [nat64] amounts [a]
    and [b] in two calls holds [a] after the first; the second call
    replies and leaves the balance [a + b] when that sum is a
    [nat64], and traps when it is not. The profile keeps the
    registered name. *)
Theorem register_then_save_twice c name a b t1 t2 t3 u1 u2 u3 s :
  is_nat64 a = true →
  is_nat64 b = true →
  let s1 := (registerUser (mkIc c t1 u1) name s).2 in
  ∃ s2,
    saveFunds (mkIc c t2 u2) a s1
    = Some (Ok ("Amount " +:+ pretty a +:+ " saved successfully."), s2)
    ∧ userProfiles s2 !! c = Some (UserProfile.mk c name a)
    ∧ if is_nat64 (a + b) then
        ∃ s3,
          saveFunds (mkIc c t3 u3) b s2
          = Some (Ok ("Amount " +:+ pretty b +:+ " saved successfully."), s3)
          ∧ userProfiles s3 !! c = Some (UserProfile.mk c name (a + b))
      else saveFunds (mkIc c t3 u3) b s2 = None.
Proof.
  intros Ha Hb. simpl. unfold saveFunds at 1. simpl. rewrite lookup_insert_eq. simpl.
  unfold encodes_UserProfile. simpl. rewrite !Z.add_0_l, Ha.
  eexists. split_and!; [reflexivity|simpl; apply lookup_insert_eq|].
  unfold saveFunds. simpl. rewrite lookup_insert_eq. simpl.
  unfold encodes_UserProfile. simpl.
  destruct (is_nat64 (a + b)); [|done].
  eexists. split; [reflexivity|]. simpl. apply lookup_insert_eq.
Qed.

Lemma register_then_save_twice_witness :
  ∃ s2,
    saveFunds ic_extend 70 s_registered
    = Some (Ok ("Amount " +:+ pretty 70 +:+ " saved successfully."), s2)
    ∧ userProfiles s2 !! alice = Some (UserProfile.mk alice "Alice" 70)
    ∧ saveFunds ic_year nat64_max s2 = None.
Proof.
  destruct (register_then_save_twice alice "Alice" 70 nat64_max 0 100 31536000
              requestId1 "" "" init eq_refl eq_refl) as (s2 & H1 & H2 & H3).
  exists s2. split_and!; [exact H1|exact H2|exact H3].
Defined.

(** X2: in a store of the canister, [saveFunds] fails with [NotFound]
    and changes nothing when the caller has no profile. Otherwise,
    when the balance plus the amount is a [nat64], it replies [Ok] and
    adds the amount to the caller's balance and to nothing else: the
    other profiles, the loans and the requests are as before; when
    the sum is not a [nat64] the call traps. *)
Theorem saveFunds_reachable ic amount s :
  reachable s →
  match userProfiles s !! caller ic with
  | None => saveFunds ic amount s = Some (Err (NotFound "User not found"), s)
  | Some user =>
      if is_nat64 (UserProfile.balance user + amount) then
        ∃ s',
          saveFunds ic amount s
          = Some (Ok ("Amount " +:+ pretty amount +:+ " saved successfully."), s')
          ∧ userProfiles s' !! caller ic
            = Some (UserProfile.mk (caller ic) (UserProfile.name user)
                      (UserProfile.balance user + amount))
          ∧ (∀ p, p ≠ caller ic → userProfiles s' !! p = userProfiles s !! p)
          ∧ loansStorage s' = loansStorage s
          ∧ loanRequestsStorage s' = loanRequestsStorage s
      else saveFunds ic amount s = None
  end.
Proof.
  intros Hwf%reachable_profiles_wf. unfold saveFunds.
  destruct (userProfiles s !! caller ic) as [user|] eqn:Hu; [|done].
  pose proof (Hwf _ _ Hu) as Hp. simpl in Hp.
  unfold encodes_UserProfile. simpl.
  destruct (is_nat64 (UserProfile.balance user + amount)); [|done].
  eexists. split; [reflexivity|]. simpl. rewrite Hp.
  split_and!; [|by intros p Hne; rewrite lookup_insert_ne|done|done].
  rewrite lookup_insert_eq. unfold UserProfile.set_balance. by rewrite Hp.
Qed.

Lemma saveFunds_reachable_witness :
  ∃ s',
    saveFunds ic_extend 70 s_registered
    = Some (Ok ("Amount " +:+ pretty 70 +:+ " saved successfully."), s')
    ∧ userProfiles s' !! alice = Some (UserProfile.mk alice "Alice" 70).
Proof.
  pose proof (saveFunds_reachable ic_extend 70 s_registered s_registered_reachable) as H.
  change (userProfiles s_registered !! caller ic_extend) with (Some profile_alice) in H.
  change (is_nat64 (UserProfile.balance profile_alice + 70)) with true in H.
  destruct H as (s' & H1 & H2 & _). exists s'. by split.
Defined.

(** X3: [registerUser] always succeeds, for every name, and files a
    fresh profile with balance 0 under the caller, whatever profile
    and funds the caller had before; nothing else is changed. *)
Theorem registerUser_overwrites ic name s :
  (registerUser ic name s).1
  = Ok ("User " +:+ name +:+ " registered successfully with principal "
          +:+ toText (caller ic))
  ∧ userProfiles (registerUser ic name s).2 !! caller ic
    = Some (UserProfile.mk (caller ic) name 0)
  ∧ (∀ p, p ≠ caller ic →
       userProfiles (registerUser ic name s).2 !! p = userProfiles s !! p)
  ∧ loansStorage (registerUser ic name s).2 = loansStorage s
  ∧ loanRequestsStorage (registerUser ic name s).2 = loanRequestsStorage s.
Proof.
  simpl. split_and!; [done|apply lookup_insert_eq| |done|done].
  intros p Hne. by rewrite lookup_insert_ne.
Qed.

Lemma put_loan_profiles s loan s' : put_loan s loan = Some s' → userProfiles s' = userProfiles s.
Proof. by intros [_ ->]%put_loan_Some. Qed.

(** X4: no loan endpoint touches a profile: filing or accepting a
    request, repaying, checking defaults, modifying or extending a
    loan, accruing interest and the automated repayment sweep all
    leave every balance as it was, whether they reply or trap. *)
Theorem loan_calls_keep_profiles s :
  (∀ ic request,
     userProfiles (store_after (createLoanRequest ic request s) s) = userProfiles s)
  ∧ (∀ ic loanRequestId,
       userProfiles (store_after (acceptLoanRequest ic loanRequestId s) s)
       = userProfiles s)
  ∧ (∀ ic loanId repaymentAmount,
       userProfiles (makeRepayment ic loanId repaymentAmount s).2 = userProfiles s)
  ∧ userProfiles (checkForDefault s).2 = userProfiles s
  ∧ (∀ ic loanId newTerms,
       userProfiles (store_after (modifyLoanTerms ic loanId newTerms s) s)
       = userProfiles s)
  ∧ (∀ ic loanId newDuration,
       userProfiles (store_after (requestLoanExtension ic loanId newDuration s) s)
       = userProfiles s)
  ∧ (∀ ic, userProfiles (store_after (accumulateInterest ic s) s) = userProfiles s)
  ∧ (∀ ic, userProfiles (store_after (automateLoanRepayment ic s) s) = userProfiles s).
Proof.
  split_and!.
  - done.
  - done.
  - intros ic lid amt. unfold makeRepayment. by destruct (loansStorage s !! lid).
  - by rewrite checkForDefault_eq.
  - intros ic lid terms. unfold modifyLoanTerms, put_loan.
    destruct (loansStorage s !! lid); [|done]. destruct (negb _); [done|].
    by destruct (encodes_Loan _).
  - intros ic lid dur. unfold requestLoanExtension, put_loan.
    destruct (loansStorage s !! lid); [|done].
    destruct (negb _); [done|]. destruct (bool_decide _); [done|].
    by destruct (encodes_Loan _).
  - intros ic. rewrite accumulateInterest_eq. simpl.
    destruct (forallb _ _); [|done]. apply foldl_insert_loan_profiles.
  - intros ic. rewrite automateLoanRepayment_eq. simpl.
    destruct (forallb _ _); [|done]. apply foldl_insert_loan_profiles.
Qed.

(** ** Nothing is deleted *)

(** X5: no update call removes a record: a key present in the loans
    map, in the request map or in the profile map before a call that
    replies is still present after it. *)
Theorem step_keeps_keys s s' :
  step s s' →
  (∀ k, is_Some (loansStorage s !! k) → is_Some (loansStorage s' !! k))
  ∧ (∀ k, is_Some (loanRequestsStorage s !! k) → is_Some (loanRequestsStorage s' !! k))
  ∧ (∀ k, is_Some (userProfiles s !! k) → is_Some (userProfiles s' !! k)).
Proof.
  intros Hstep. split_and!.
  - destruct (step_loans s s' Hstep) as (ls & -> & _).
    intros k. apply foldl_insert_loan_is_Some.
  - by rewrite (step_requests s s' Hstep).
  - destruct (step_profiles s s' Hstep) as [->|[user ->]]; [done|].
    intros k Hk. rewrite lookup_insert. by case_decide.
Qed.

Lemma s_active_accrued :
  step s_active (store_after (accumulateInterest ic_year s_active) s_active).
Proof. eapply (step_accumulateInterest ic_year s_active). vm_compute. reflexivity. Qed.

Lemma step_keeps_keys_witness :
  is_Some (loansStorage s_active !! loanId1)
  ∧ is_Some (loansStorage (store_after (accumulateInterest ic_year s_active) s_active)
               !! loanId1).
Proof.
  assert (is_Some (loansStorage s_active !! loanId1)) as H
    by (rewrite s_active_loan1; eauto).
  split; [exact H|].
  exact (proj1 (step_keeps_keys s_active _ s_active_accrued) loanId1 H).
Defined.

(** ** The status of the loans *)

Lemma keys_ok_kept s0 s : keys_ok s0 → reachable_from s0 s → keys_ok s.
Proof.
  intros H0 Hreach. eapply reachable_from_Forall; [|exact Hreach|exact H0].
  done.
Qed.

Lemma loans_active_kept s0 s : loans_active s0 → reachable_from s0 s → loans_active s.
Proof.
  intros H0 Hreach. eapply reachable_from_Forall; [|exact Hreach|exact H0].
  simpl. intros _ old new Hold (_ & _ & _ & Hstatus & _) _. congruence.
Qed.

(** X6: no sequence of calls makes a loan Completed or Defaulted: from
    a store whose loans are filed under their ids with the status
    [{Active: "ACTIVE"}], every sequence of replying calls leads to a
    store whose loans are still filed under their ids with that
    status, and [getLoanStatus] answers Active for each of them. *)
Theorem loans_stay_active s0 s k loan :
  keys_ok s0 →
  loans_active s0 →
  reachable_from s0 s →
  loansStorage s !! k = Some loan →
  Loan.id loan = k
  ∧ Loan.status loan = Active "ACTIVE"
  ∧ getLoanStatus k s = Ok (Active "ACTIVE").
Proof.
  intros Hkeys Hact Hreach Hk.
  pose proof (keys_ok_kept s0 s Hkeys Hreach k loan Hk) as Hid.
  pose proof (loans_active_kept s0 s Hact Hreach k loan Hk) as Hst.
  simpl in Hid, Hst. split_and!; [done|done|].
  unfold getLoanStatus. by rewrite Hk, Hst.
Qed.

Lemma s_active_twice :
  reachable_from s_active
    (store_after (accumulateInterest ic_year s_active) s_active).
Proof.
  eapply reachable_from_step; [apply reachable_from_refl|apply s_active_accrued].
Qed.

Lemma loans_stay_active_witness :
  getLoanStatus loanId1 (store_after (accumulateInterest ic_year s_active) s_active)
  = Ok (Active "ACTIVE").
Proof.
  refine (proj2 (proj2 (loans_stay_active s_active _ loanId1
                          (Loan.set_amount 1050 loan1) s_active_keys_ok _
                          s_active_twice _))).
  - unfold loans_active, s_active. simpl. by apply map_Forall_singleton.
  - vm_compute. reflexivity.
Defined.

(** ** The accrual sweep as a whole *)

Lemma keys_ok_foldl_insert_loan s ls : keys_ok s → keys_ok (foldl insert_loan s ls).
Proof.
  intros Hk. apply (foldl_insert_loan_Forall (λ k loan, Loan.id loan = k)); [done|].
  by apply Forall_forall.
Qed.

(** The ids of the Active loans of a store filed by id. *)
Lemma active_ids s k :
  keys_ok s →
  k ∈ Loan.id <$> filter (λ loan, statusIsActive (Loan.status loan) = true)
                         (values (loansStorage s))
  ↔ ∃ loan, loansStorage s !! k = Some loan ∧ Loan.status loan = Active "ACTIVE".
Proof.
  intros Hkeys. rewrite list_elem_of_fmap. split.
  - intros (loan & -> & [[k' Hk] Hact]%active_loans).
    pose proof (Hkeys k' loan Hk) as Hid. simpl in Hid. subst k'. eauto.
  - intros (loan & Hk & Hact). exists loan.
    pose proof (Hkeys k loan Hk) as Hid. simpl in Hid.
    split; [done|]. apply active_loans. eauto.
Qed.

(** X7: on a store whose loans are filed under their ids,
    [accumulateInterest] replies exactly when every Active loan, with
    its interest added, can still be encoded. When it replies, it
    reports the ids of the Active loans, each once, and no other id,
    adds no key to the loans map and leaves the requests and the
    profiles as they were; when it traps, some Active loan's new
    amount has left [nat64]. *)
Theorem accumulateInterest_reply ic s :
  keys_ok s →
  match accumulateInterest ic s with
  | Some (ids, s') =>
      (∀ k loan, loansStorage s !! k = Some loan →
                 Loan.status loan = Active "ACTIVE" →
                 encodes_Loan (accrue ic loan) = true)
      ∧ (∀ k, k ∈ ids ↔ ∃ loan, loansStorage s !! k = Some loan
                                ∧ Loan.status loan = Active "ACTIVE")
      ∧ NoDup ids
      ∧ (∀ k, loansStorage s !! k = None → loansStorage s' !! k = None)
      ∧ loanRequestsStorage s' = loanRequestsStorage s
      ∧ userProfiles s' = userProfiles s
  | None =>
      ∃ k loan, loansStorage s !! k = Some loan
                ∧ Loan.status loan = Active "ACTIVE"
                ∧ encodes_Loan (accrue ic loan) = false
  end.
Proof.
  intros Hkeys. rewrite accumulateInterest_eq. simpl.
  destruct (forallb _ _) eqn:Hall.
  - rewrite forallb_forall in Hall. split_and!.
    + intros k loan Hk Hact. apply Hall, list_elem_of_In, list_elem_of_fmap_2.
      apply active_loans. eauto.
    + intros k. by apply active_ids.
    + by apply NoDup_filter_ids, NoDup_values_ids.
    + intros k Hnone. rewrite foldl_insert_loan_notin; [done|].
      rewrite accrue_ids. intros (loan & Hk & _)%active_ids; [congruence|done].
    + apply foldl_insert_loan_requests.
    + apply foldl_insert_loan_profiles.
  - destruct (decide (Forall (λ loan, encodes_Loan (accrue ic loan) = true)
                (filter (λ loan, statusIsActive (Loan.status loan) = true)
                        (values (loansStorage s))))) as [HF|HF].
    + rewrite Forall_forall in HF.
      apply not_true_iff_false in Hall. destruct Hall.
      apply forallb_forall. intros new Hnew%list_elem_of_In.
      apply list_elem_of_fmap in Hnew as (loan & -> & Hin). by apply HF.
    + apply not_Forall_Exists in HF; [|apply _].
      apply Exists_exists in HF as (loan & [[k Hk] Hact]%active_loans & Henc).
      exists k, loan. split_and!; [done|done|].
      by apply not_true_iff_false.
Qed.

Lemma accumulateInterest_reply_witness :
  ∃ k loan, loansStorage s_two_loans !! k = Some loan
            ∧ Loan.status loan = Active "ACTIVE"
            ∧ encodes_Loan (accrue ic_year loan) = false.
Proof.
  assert (keys_ok s_two_loans) as Hkeys.
  { unfold keys_ok, s_two_loans. simpl.
    apply map_Forall_insert_2; [done|]. by apply map_Forall_singleton. }
  pose proof (accumulateInterest_reply ic_year s_two_loans Hkeys) as H.
  assert (accumulateInterest ic_year s_two_loans = None) as Hnone
    by (vm_compute; reflexivity).
  rewrite Hnone in H. exact H.
Defined.

(** X8: on a store whose loans are filed under their ids,
    [accumulateInterest] leaves in the store, unchanged, every loan
    whose status is not [{Active: "ACTIVE"}], and does not report its
    id, whether the call replies or traps. *)
Theorem accumulateInterest_skips_inactive ic s k loan :
  keys_ok s →
  loansStorage s !! k = Some loan →
  Loan.status loan ≠ Active "ACTIVE" →
  loansStorage (store_after (accumulateInterest ic s) s) !! k = Some loan
  ∧ k ∉ ids_of (accumulateInterest ic s).
Proof.
  intros Hkeys Hk Hst. rewrite accumulateInterest_eq. simpl.
  assert (k ∉ Loan.id <$> filter (λ loan, statusIsActive (Loan.status loan) = true)
                                 (values (loansStorage s))) as Hnotin.
  { intros (loan' & Hk' & Hact)%active_ids; [congruence|done]. }
  destruct (forallb _ _); simpl; [|split; [done|apply not_elem_of_nil]].
  split; [|done]. rewrite foldl_insert_loan_notin; [done|]. by rewrite accrue_ids.
Qed.

Lemma accumulateInterest_skips_inactive_witness :
  loansStorage (store_after (accumulateInterest ic4 s4) s4) !! loanId1 = Some loan4
  ∧ loanId1 ∉ ids_of (accumulateInterest ic4 s4).
Proof.
  apply (accumulateInterest_skips_inactive ic4 s4 loanId1 loan4 s4_keys_ok s4_loan4).
  discriminate.
Defined.

(** X9: accrual is not idempotent: when two [accumulateInterest]
    calls in a row reply, the second has added interest again,
    computed from the creation date on the amount that already
    includes the first accrual. *)
Theorem accumulateInterest_twice ic1 ic2 s ids1 s1 ids2 s2 k loan :
  keys_ok s →
  loansStorage s !! k = Some loan →
  Loan.status loan = Active "ACTIVE" →
  accumulateInterest ic1 s = Some (ids1, s1) →
  accumulateInterest ic2 s1 = Some (ids2, s2) →
  let a1 := Loan.amount loan + calculateAccumulatedInterest ic1 loan in
  let a2 := a1 + calculateAccumulatedInterest ic2 (Loan.set_amount a1 loan) in
  loansStorage s2 !! k = Some (Loan.set_amount a2 loan).
Proof.
  intros Hkeys Hk Hact Hcall1 Hcall2 a1 a2.
  destruct (accumulateInterest_lookup ic1 s ids1 s1 k loan Hkeys Hcall1 Hk Hact)
    as [_ H1].
  assert (keys_ok s1) as Hkeys1.
  { rewrite accumulateInterest_eq in Hcall1. simpl in Hcall1.
    destruct (forallb _ _); [|done]. injection Hcall1 as _ <-.
    by apply keys_ok_foldl_insert_loan. }
  destruct (accumulateInterest_lookup ic2 s1 ids2 s2 k (accrue ic1 loan)
              Hkeys1 Hcall2 H1 Hact) as [_ H2].
  exact H2.
Qed.

Lemma accumulateInterest_twice_witness :
  loansStorage
    (store_after
       (accumulateInterest ic_year
          (store_after (accumulateInterest ic_year s_active) s_active))
       (store_after (accumulateInterest ic_year s_active) s_active))
    !! loanId1
  = Some (Loan.set_amount 1102 loan1).
Proof.
  set (s1 := store_after (accumulateInterest ic_year s_active) s_active).
  set (s2 := store_after (accumulateInterest ic_year s1) s1).
  assert (accumulateInterest ic_year s_active = Some ([loanId1], s1)) as H1
    by (vm_compute; reflexivity).
  assert (accumulateInterest ic_year s1 = Some ([loanId1], s2)) as H2
    by (vm_compute; reflexivity).
  exact (accumulateInterest_twice ic_year ic_year s_active [loanId1] s1 [loanId1] s2
           loanId1 loan1 s_active_keys_ok s_active_loan1 eq_refl H1 H2).
Defined.

(** ** The repayment sweep as a whole *)

(** X10: [automateLoanRepayment] traps exactly when some stored loan
    is due (its due date is not after the time of the call) and
    either has duration 0 or, once rewritten with its amount reduced
    by the repayment, can no longer be encoded, as when the repayment
    exceeds the amount; in every other store the call replies. *)
Theorem automateLoanRepayment_traps_iff ic s :
  automateLoanRepayment ic s = None
  ↔ ∃ k loan, loansStorage s !! k = Some loan
              ∧ Loan.dueDate loan ≤ time ic
              ∧ (Loan.duration loan = 0 ∨ encodes_Loan (repay ic loan) = false).
Proof.
  rewrite automateLoanRepayment_eq. simpl.
  destruct (forallb _ _) eqn:Hall; split; try done.
  - rewrite forallb_forall in Hall.
    intros (k & loan & Hk & Hdue & Hbad).
    assert (repayable ic loan = true) as [Hdur Henc]%andb_true_iff.
    { apply Hall, list_elem_of_In, due_loans. eauto. }
    apply negb_true_iff, bool_decide_eq_false in Hdur.
    destruct Hbad; [done|congruence].
  - intros _.
    destruct (decide (Forall (λ loan, repayable ic loan = true)
                (filter (λ loan, shouldAutomateRepayment ic loan = true)
                        (values (loansStorage s))))) as [HF|HF].
    + rewrite Forall_forall in HF.
      assert (forallb (repayable ic)
                (filter (λ loan, shouldAutomateRepayment ic loan = true)
                        (values (loansStorage s))) = true) as Htrue.
      { apply forallb_forall. intros loan Hin%list_elem_of_In. by apply HF. }
      congruence.
    + apply not_Forall_Exists in HF; [|apply _].
      apply Exists_exists in HF as (loan & [[k Hk] Hdue]%due_loans & Hrep).
      exists k, loan. split_and!; [done|done|].
      apply not_true_iff_false, andb_false_iff in Hrep as [Hd|He]; [left|by right].
      by apply negb_false_iff, bool_decide_eq_true in Hd.
Qed.

(** X11: when [automateLoanRepayment] replies, on a store whose loans
    are filed under their ids, it reports exactly the ids of the due
    loans, whatever their status; each due loan is stored back with
    its amount reduced by the accrued interest plus
    [amount / duration], every other loan is unchanged, and no request
    or profile is touched. *)
Theorem automateLoanRepayment_reply ic s ids s' :
  keys_ok s →
  automateLoanRepayment ic s = Some (ids, s') →
  (∀ k, k ∈ ids ↔ ∃ loan, loansStorage s !! k = Some loan
                          ∧ Loan.dueDate loan ≤ time ic)
  ∧ (∀ k loan, loansStorage s !! k = Some loan →
       loansStorage s' !! k
       = Some (if bool_decide (Loan.dueDate loan ≤ time ic)
               then Loan.set_amount
                      (Loan.amount loan
                       - (calculateAccumulatedInterest ic loan
                          + Loan.amount loan ÷ Loan.duration loan)) loan
               else loan))
  ∧ loanRequestsStorage s' = loanRequestsStorage s
  ∧ userProfiles s' = userProfiles s.
Proof.
  intros Hkeys Hauto. rewrite automateLoanRepayment_eq in Hauto. simpl in Hauto.
  set (due := filter (λ loan, shouldAutomateRepayment ic loan = true)
                     (values (loansStorage s))) in *.
  destruct (forallb _ _); [|done]. injection Hauto as <- <-.
  assert (NoDup (Loan.id <$> due)) as Hnd by by apply NoDup_filter_ids, NoDup_values_ids.
  split_and!.
  - intros k. rewrite list_elem_of_fmap. split.
    + intros (loan & -> & [[k' Hk] Hdue]%due_loans).
      pose proof (Hkeys k' loan Hk) as Hid. simpl in Hid. subst k'. eauto.
    + intros (loan & Hk & Hdue). exists loan.
      pose proof (Hkeys k loan Hk) as Hid. simpl in Hid.
      split; [done|]. apply due_loans. eauto.
  - intros k loan Hk. pose proof (Hkeys k loan Hk) as Hid. simpl in Hid.
    case_bool_decide as Hdue.
    + rewrite <- Hid. change (Loan.id loan) with (Loan.id (repay ic loan)).
      apply (foldl_insert_loan_in s (repay ic <$> due) (repay ic loan));
        [by rewrite repay_ids|].
      apply list_elem_of_fmap_2, due_loans. eauto.
    + rewrite foldl_insert_loan_notin; [done|].
      rewrite repay_ids.
      intros (l & Hl & [[k' Hk'] Hdue']%due_loans)%list_elem_of_fmap.
      pose proof (Hkeys k' l Hk') as Hid'. simpl in Hid'. subst k'.
      rewrite <- Hl in Hk'. assert (l = loan) as -> by congruence. done.
  - apply foldl_insert_loan_requests.
  - apply foldl_insert_loan_profiles.
Qed.

Lemma automateLoanRepayment_reply_witness :
  ∃ s', automateLoanRepayment ic4 s4 = Some ([loanId1], s')
        ∧ loansStorage s' !! loanId1 = Some (Loan.set_amount 900 loan4).
Proof.
  destruct (automateLoanRepayment ic4 s4) as [[ids s']|] eqn:Hauto.
  - pose proof (automateLoanRepayment_reply ic4 s4 ids s' s4_keys_ok Hauto) as H.
    exists s'. split.
    + revert Hauto. vm_compute. by intros [= <- _].
    + exact (proj1 (proj2 H) loanId1 loan4 s4_loan4).
  - exfalso. revert Hauto. vm_compute. discriminate.
Defined.

(** X12: any Active loan can be made to abort the repayment sweep
    through the canister's own endpoint: [modifyLoanTerms] with
    [nat64] terms of duration 0, called at a [nat64] time on an
    encoded loan, is accepted, and after it every
    [automateLoanRepayment] call made at that time or later traps. *)
Theorem modifyLoanTerms_zero_duration_traps ic ic' loanId newTerms s loan :
  loansStorage s !! loanId = Some loan →
  Loan.status loan = Active "ACTIVE" →
  LoanRequest.duration newTerms = 0 →
  time ic ≤ time ic' →
  encodes_Loan loan = true →
  encodes_LoanRequest newTerms = true →
  is_nat64 (time ic) = true →
  ∃ loan' s',
    modifyLoanTerms ic loanId newTerms s = Some (Ok loan', s')
    ∧ automateLoanRepayment ic' s' = None.
Proof.
  intros Hk Hact%statusIsActive_true Hdur Ht
    (_ & _ & _ & Hc & _)%encodes_Loan_true Hterms Htime.
  unfold encodes_LoanRequest in Hterms.
  apply andb_true_iff in Hterms as [[Ha Hr]%andb_true_iff Hd].
  unfold modifyLoanTerms, put_loan. rewrite Hk, Hact. simpl.
  unfold encodes_Loan, calculateDueDate. simpl.
  rewrite Ha, Hr, Hd, Hc, Hdur, Z.add_0_r, Htime. simpl.
  eexists _, _. split; [reflexivity|].
  eapply (automateLoanRepayment_traps ic' _ (Loan.id loan)).
  - simpl. apply lookup_insert_eq.
  - simpl. lia.
  - done.
Qed.

Lemma modifyLoanTerms_zero_duration_traps_witness :
  ∃ loan' s',
    modifyLoanTerms ic_extend loanId1 request8 s_active = Some (Ok loan', s')
    ∧ automateLoanRepayment ic_year s' = None.
Proof.
  refine (modifyLoanTerms_zero_duration_traps ic_extend ic_year loanId1
            request8 s_active loan1 s_active_loan1 _ _ _ _ _ _).
  - reflexivity.
  - reflexivity.
  - simpl. lia.
  - reflexivity.
  - reflexivity.
  - reflexivity.
Defined.

(** ** What the stores of the canister hold *)

Lemma values_empty {V} : values (∅ : gmap text V) = [].
Proof. unfold values. by rewrite map_to_list_empty. Qed.

Lemma empty_loans_kept s0 s :
  loansStorage s0 = ∅ → reachable_from s0 s → loansStorage s = ∅.
Proof.
  intros H0 Hreach. induction Hreach as [|s s' _ IH Hstep]; [done|].
  destruct (step_loans s s' Hstep) as (ls & -> & Hls).
  destruct ls as [|new ls]; [done|].
  apply Forall_cons in Hls as [(_ & k & old & Hk & _) _].
  rewrite IH, lookup_empty in Hk. done.
Qed.

Lemma requests_kept s0 s :
  reachable_from s0 s → loanRequestsStorage s = loanRequestsStorage s0.
Proof.
  intros Hreach. induction Hreach as [|s s' _ IH Hstep]; [done|].
  by rewrite (step_requests s s' Hstep).
Qed.

(** X13: since [createLoanRequest] and [acceptLoanRequest] never
    reply, the canister never holds a request or a loan: in every
    store reachable from the deployed one both maps are empty, so
    [getLoanStatus] answers [NotFound] for every id, the two sweeps
    reply with no id and change nothing, and every loan history is
    empty. *)
Theorem reachable_stores_hold_no_loan s :
  reachable s →
  loansStorage s = ∅
  ∧ loanRequestsStorage s = ∅
  ∧ (∀ loanId, getLoanStatus loanId s
               = Err (NotFound ("Loan with id=" +:+ loanId +:+ " not found")))
  ∧ (∀ ic, accumulateInterest ic s = Some ([], s))
  ∧ (∀ ic, automateLoanRepayment ic s = Some ([], s))
  ∧ (∀ userPrincipal, getUserLoanHistory userPrincipal s = Some []).
Proof.
  intros Hreach.
  pose proof (empty_loans_kept init s eq_refl Hreach) as Hloans.
  split_and!.
  - done.
  - by rewrite (requests_kept init s Hreach).
  - intros lid. unfold getLoanStatus. by rewrite Hloans, lookup_empty.
  - intros ic. unfold accumulateInterest. by rewrite Hloans, values_empty.
  - intros ic. unfold automateLoanRepayment. by rewrite Hloans, values_empty.
  - intros u. unfold getUserLoanHistory. by rewrite Hloans, values_empty.
Qed.

Lemma reachable_stores_hold_no_loan_witness :
  loansStorage s_registered = ∅
  ∧ ∀ ic, accumulateInterest ic s_registered = Some ([], s_registered).
Proof.
  pose proof (reachable_stores_hold_no_loan s_registered s_registered_reachable)
    as (H1 & _ & _ & H2 & _).
  by split.
Defined.

(** X14: a replying update call creates no loan and re-attributes
    none: on a store whose loans are filed under their ids, the keys
    of the loans map are the same after the call, and the loan found
    under a key afterwards is the one that was there or a rewriting
    of it with the same id, borrower, lender, status and creation
    date. *)
Theorem step_keeps_loan_identity s s' k :
  keys_ok s →
  step s s' →
  match loansStorage s !! k, loansStorage s' !! k with
  | Some old, Some new => new = old ∨ same_identity old new
  | None, None => True
  | _, _ => False
  end.
Proof.
  intros Hkeys (ls & Hs' & Hls)%step_loans.
  assert (map_Forall (λ k new, ∃ old, loansStorage s !! k = Some old
                                      ∧ (new = old ∨ same_identity old new))
            (loansStorage s')) as Hinv.
  { rewrite Hs'. apply foldl_insert_loan_Forall.
    - intros k0 old Hk0. eauto.
    - eapply Forall_impl; [exact Hls|]. simpl.
      intros new (_ & k0 & old & Hk0 & Hsame).
      pose proof Hsame as (Hid & _). rewrite Hid.
      pose proof (Hkeys k0 old Hk0) as Hold. simpl in Hold. rewrite Hold. eauto. }
  destruct (loansStorage s' !! k) as [new|] eqn:Hnew.
  - destruct (Hinv k new Hnew) as (old & -> & H). done.
  - destruct (loansStorage s !! k) as [old|] eqn:Hold; [|done].
    assert (is_Some (loansStorage s' !! k)) as [? ?]; [|congruence].
    rewrite Hs'. apply foldl_insert_loan_is_Some. by rewrite Hold.
Qed.

Lemma step_keeps_loan_identity_witness :
  match loansStorage s_active !! loanId1,
        loansStorage (store_after (accumulateInterest ic_year s_active) s_active)
          !! loanId1 with
  | Some old, Some new => new = old ∨ same_identity old new
  | None, None => True
  | _, _ => False
  end.
Proof.
  exact (step_keeps_loan_identity s_active _ loanId1 s_active_keys_ok s_active_accrued).
Defined.

(** ** Missing ids, modifications and histories *)

(** X16: a loan id that is not a key of the loans map is answered
    [NotFound], with the id in the message, by [makeRepayment],
    [getLoanStatus], [modifyLoanTerms] and [requestLoanExtension], and
    the three update calls leave the store as it was. *)
Theorem missing_loan_NotFound loanId s :
  loansStorage s !! loanId = None →
  let notFound := NotFound ("Loan with id=" +:+ loanId +:+ " not found") in
  (∀ ic repaymentAmount,
     makeRepayment ic loanId repaymentAmount s = (Err notFound, s))
  ∧ getLoanStatus loanId s = Err notFound
  ∧ (∀ ic newTerms, modifyLoanTerms ic loanId newTerms s = Some (Err notFound, s))
  ∧ (∀ ic newDuration,
       requestLoanExtension ic loanId newDuration s = Some (Err notFound, s)).
Proof.
  intros Hnone. unfold makeRepayment, getLoanStatus, modifyLoanTerms,
    requestLoanExtension. rewrite Hnone. by split_and!.
Qed.

Lemma missing_loan_NotFound_witness :
  getLoanStatus loanId2 s_active
  = Err (NotFound ("Loan with id=" +:+ loanId2 +:+ " not found")).
Proof.
  refine (proj1 (proj2 (missing_loan_NotFound loanId2 s_active _))).
  vm_compute. reflexivity.
Defined.

(** X17: [modifyLoanTerms] on an encoded Active loan checks nothing
    about the new [nat64] terms. When the time of the call plus the
    new duration is a [nat64] it replies with the loan carrying the
    new amount, rate and duration and that sum as due date, keeping
    its id, borrower, lender, status and creation date, and stores it
    under the loan's id; when the sum is not a [nat64] the call
    traps. *)
Theorem modifyLoanTerms_active ic loanId newTerms s loan :
  loansStorage s !! loanId = Some loan →
  Loan.status loan = Active "ACTIVE" →
  encodes_Loan loan = true →
  encodes_LoanRequest newTerms = true →
  if is_nat64 (time ic + LoanRequest.duration newTerms) then
    ∃ loan',
      modifyLoanTerms ic loanId newTerms s = Some (Ok loan', insert_loan s loan')
      ∧ Loan.amount loan' = LoanRequest.amount newTerms
      ∧ Loan.interestRate loan' = LoanRequest.interestRate newTerms
      ∧ Loan.duration loan' = LoanRequest.duration newTerms
      ∧ Loan.dueDate loan' = time ic + LoanRequest.duration newTerms
      ∧ same_identity loan loan'
  else modifyLoanTerms ic loanId newTerms s = None.
Proof.
  intros Hk Hact%statusIsActive_true (_ & _ & _ & Hc & _)%encodes_Loan_true Hterms.
  unfold encodes_LoanRequest in Hterms.
  apply andb_true_iff in Hterms as [[Ha Hr]%andb_true_iff Hd].
  unfold modifyLoanTerms, put_loan. rewrite Hk, Hact. simpl.
  unfold encodes_Loan, calculateDueDate. simpl. rewrite Ha, Hr, Hd, Hc. simpl.
  destruct (is_nat64 (time ic + LoanRequest.duration newTerms)); [|done].
  eexists. split; [reflexivity|]. by split_and!.
Qed.

Lemma modifyLoanTerms_active_witness :
  ∃ loan',
    modifyLoanTerms ic_extend loanId1 request7 s_active
    = Some (Ok loan', insert_loan s_active loan')
    ∧ Loan.amount loan' = 150
    ∧ Loan.interestRate loan' = 1
    ∧ Loan.duration loan' = 94608000
    ∧ Loan.dueDate loan' = 100 + 94608000
    ∧ same_identity loan1 loan'.
Proof.
  exact (modifyLoanTerms_active ic_extend loanId1 request7 s_active loan1
           s_active_loan1 eq_refl eq_refl eq_refl).
Defined.



(** ** The interest against the single-floor formula *)

(** X19: on [nat64] data the interest computed by the canister never
    exceeds the single-floor simple interest
    [floor(amount * rate * elapsed / (100 * year))], is never negative,
    and equals it whenever [amount * rate] is a multiple of 100. *)
Theorem calculateAccumulatedInterest_bounds ic loan :
  0 ≤ Loan.amount loan → 0 ≤ Loan.interestRate loan →
  Loan.creationDate loan ≤ time ic →
  let exact := accrueInterest_spec (Loan.amount loan) (Loan.interestRate loan)
                 (time ic - Loan.creationDate loan) in
  0 ≤ calculateAccumulatedInterest ic loan ≤ exact
  ∧ ((Loan.amount loan * Loan.interestRate loan) `mod` 100 = 0 →
       calculateAccumulatedInterest ic loan = exact).
Proof.
  intros Ha Hr Ht. rewrite calculateAccumulatedInterest_floor by done.
  unfold accrueInterest_spec.
  set (x := Loan.amount loan * Loan.interestRate loan).
  set (e := time ic - Loan.creationDate loan).
  assert (0 ≤ x) as Hx by (apply Z.mul_nonneg_nonneg; lia).
  assert (0 ≤ e) as He by lia.
  assert (0 < secondsPerYear) as HY by done.
  assert (0 ≤ x / 100) as Hq by (apply Z.div_pos; lia).
  rewrite <- (Z.div_div (x * e) 100 secondsPerYear) by lia.
  split_and!.
  - apply Z.div_pos; [|done]. by apply Z.mul_nonneg_nonneg.
  - apply Z.div_le_mono; [done|].
    apply Z.div_le_lower_bound; [lia|].
    rewrite Z.mul_assoc. apply Z.mul_le_mono_nonneg_r; [done|].
    apply Z.mul_div_le. lia.
  - intros Hmod. f_equal.
    apply Z.div_exact in Hmod; [|lia].
    replace (x * e) with (x / 100 * e * 100) by lia.
    by rewrite Z.div_mul.
Qed.

Lemma calculateAccumulatedInterest_bounds_witness :
  0 ≤ calculateAccumulatedInterest ic7 loan7
    ≤ accrueInterest_spec 150 1 (63072000 - 0).
Proof.
  refine (proj1 (calculateAccumulatedInterest_bounds ic7 loan7 _ _ _));
    simpl; lia.
Defined.

(** ** Who may change a loan *)

Lemma accumulateLoop_same_time c c' t u u' ls acc :
  accumulateLoop (mkIc c t u) ls acc = accumulateLoop (mkIc c' t u') ls acc.
Proof.
  revert acc. induction ls as [|l ls IH]; intros acc; simpl; [done|].
  change (calculateAccumulatedInterest (mkIc c' t u') l)
    with (calculateAccumulatedInterest (mkIc c t u) l).
  destruct (put_loan _ _); [|done]. apply IH.
Qed.

Lemma automateLoop_same_time c c' t u u' ls acc :
  automateLoop (mkIc c t u) ls acc = automateLoop (mkIc c' t u') ls acc.
Proof.
  revert acc. induction ls as [|l ls IH]; intros acc; simpl; [done|].
  change (calculateRepaymentAmount (mkIc c' t u') l)
    with (calculateRepaymentAmount (mkIc c t u) l).
  destruct (calculateRepaymentAmount (mkIc c t u) l); [|done].
  destruct (put_loan _ _); [|done]. apply IH.
Qed.

(** X20: the calls that act on stored loans never consult the caller:
    [makeRepayment], [modifyLoanTerms], [requestLoanExtension],
    [accumulateInterest] and [automateLoanRepayment] give the same
    reply and the same store, or trap alike, for every principal
    calling at the same time, so any principal can modify or extend
    the loan of another. *)
Theorem loan_calls_ignore_caller ic ic' s :
  time ic = time ic' →
  (∀ loanId repaymentAmount,
     makeRepayment ic loanId repaymentAmount s
     = makeRepayment ic' loanId repaymentAmount s)
  ∧ (∀ loanId newTerms,
       modifyLoanTerms ic loanId newTerms s = modifyLoanTerms ic' loanId newTerms s)
  ∧ (∀ loanId newDuration,
       requestLoanExtension ic loanId newDuration s
       = requestLoanExtension ic' loanId newDuration s)
  ∧ accumulateInterest ic s = accumulateInterest ic' s
  ∧ automateLoanRepayment ic s = automateLoanRepayment ic' s.
Proof.
  destruct ic as [c t u], ic' as [c' t' u']. simpl. intros <-.
  split_and!; try reflexivity.
  - unfold accumulateInterest. apply accumulateLoop_same_time.
  - unfold automateLoanRepayment. apply automateLoop_same_time.
Qed.

Lemma loan_calls_ignore_caller_witness :
  modifyLoanTerms (mkIc mallory 100 "") loanId1 request7 s_active
  = modifyLoanTerms ic_extend loanId1 request7 s_active.
Proof.
  exact (proj1 (proj2 (loan_calls_ignore_caller (mkIc mallory 100 "") ic_extend
                         s_active eq_refl)) loanId1 request7).
Defined.

(** X21: durations only grow through [requestLoanExtension]: once a
    loan filed under its id has been extended to [d], a further
    request for [d] or less is refused with [InvalidPayload] and
    changes nothing, whatever the time and the caller. *)
Theorem requestLoanExtension_again ic ic' loanId d d' s loan loan' s1 :
  loansStorage s !! loanId = Some loan →
  Loan.id loan = loanId →
  requestLoanExtension ic loanId d s = Some (Ok loan', s1) →
  d' ≤ d →
  requestLoanExtension ic' loanId d' s1
  = Some (Err (InvalidPayload "New duration must be longer than the current duration."),
          s1).
Proof.
  intros Hk Hid Hcall Hle. unfold requestLoanExtension in Hcall. rewrite Hk in Hcall.
  destruct (statusIsActive (Loan.status loan)) eqn:Hact; simpl in Hcall; [|done].
  destruct (bool_decide (d ≤ Loan.duration loan)); [done|].
  destruct (put_loan _ _) as [s1'|] eqn:Hput; [|done].
  injection Hcall as <- <-. apply put_loan_Some in Hput as [_ ->].
  unfold requestLoanExtension. simpl. rewrite Hid, lookup_insert_eq. simpl.
  rewrite Hact. simpl. by rewrite bool_decide_eq_true_2.
Qed.

Lemma requestLoanExtension_again_witness :
  requestLoanExtension ic_year loanId1 7200
    (store_after (requestLoanExtension ic_extend loanId1 7200 s_active) s_active)
  = Some (Err (InvalidPayload "New duration must be longer than the current duration."),
          store_after (requestLoanExtension ic_extend loanId1 7200 s_active) s_active).
Proof.
  set (s1 := store_after (requestLoanExtension ic_extend loanId1 7200 s_active)
               s_active).
  refine (requestLoanExtension_again ic_extend ic_year loanId1 7200 7200 s_active
            loan1 _ s1 s_active_loan1 eq_refl _ _).
  - vm_compute. reflexivity.
  - lia.
Defined.
